(** * umm_malloc poisoning layer (src/umm_poison.c)

    A shallow embedding of the poisoning subsystem of umm_malloc: the
    geometry function [poison_size], the sentinel writer [get_poisoned],
    the sentinel verifier [check_poison] / [check_poison_block], the
    pointer translator [get_unpoisoned], the four facade entry points and
    the heap walker [umm_poison_check].

    Memory is one flat byte-addressed store, exactly what the C code sees
    through [uint8_t *]: block headers, length fields, guards and user
    bytes all live in it and may alias.  Pointers are addresses in [Z]
    ([NULL] is [0]); [size_t] values are [Z] with the wrap-around written
    out; multi-byte fields are little-endian. *)

From Stdlib Require Import ZArith List Lia String Bool.
From coqutil Require Import Byte Word.LittleEndianList.
Import ListNotations.
Local Open Scope Z_scope.

(** ** Build-time configuration *)

(** The constants and layout facts that umm_poison.c takes from
    umm_malloc_cfg.h and umm_malloc.c. *)
Record config : Type := {
  UMM_POISON_SIZE_BEFORE : Z;   (* bytes of guard before the user region *)
  UMM_POISON_SIZE_AFTER  : Z;   (* bytes of guard after the user region *)
  sizeof_LEN_TYPE        : Z;   (* sizeof(UMM_POISONED_BLOCK_LEN_TYPE) *)
  SIZE_BITS              : Z;   (* width of size_t *)
  UMM_BLOCKSIZE          : Z;   (* sizeof(umm_block) *)
  offsetof_body          : Z;   (* offsetof(umm_block, body) *)
  UMM_HEAP               : Z;   (* address of UMM_HEAP[0] *)
  UMM_FREELIST_MASK      : Z;   (* tag bit of the next field *)
  UMM_BLOCKNO_MASK       : Z    (* index bits of the next field *)
}.

(** A configuration is sane when the sizes are sizes and the overhead is
    representable in [size_t]; the [next] field (two bytes at the start of
    the block) ends before the body. *)
Record config_ok (cfg : config) : Prop := {
  before_nonneg : 0 <= UMM_POISON_SIZE_BEFORE cfg;
  after_nonneg  : 0 <= UMM_POISON_SIZE_AFTER cfg;
  len_pos       : 0 < sizeof_LEN_TYPE cfg;
  bits_nonneg   : 0 <= SIZE_BITS cfg;
  overhead_fits : UMM_POISON_SIZE_BEFORE cfg + sizeof_LEN_TYPE cfg
                  + UMM_POISON_SIZE_AFTER cfg < 2 ^ SIZE_BITS cfg;
  body_after_next : 2 <= offsetof_body cfg
}.

(** The upstream defaults on a 32-bit target: 16-bit length field, four
    guard bytes on each side, 8-byte blocks with a 4-byte header. *)
Definition cfg32 : config := {|
  UMM_POISON_SIZE_BEFORE := 4;
  UMM_POISON_SIZE_AFTER  := 4;
  sizeof_LEN_TYPE        := 2;
  SIZE_BITS              := 32;
  UMM_BLOCKSIZE          := 8;
  offsetof_body          := 4;
  UMM_HEAP               := 4096;
  UMM_FREELIST_MASK      := 0x8000;
  UMM_BLOCKNO_MASK       := 0x7FFF
|}.

(** ** Memory, diagnostics and the effect monad *)

Definition mem : Type := Z -> byte.

Definition upd (m : mem) (a : Z) (b : byte) : mem :=
  fun x => if x =? a then b else m x.

(** [n] copies of [b] from address [p] upward. *)
Fixpoint fill (m : mem) (p : Z) (b : byte) (n : nat) : mem :=
  match n with
  | O => m
  | S k => fill (upd m p b) (p + 1) b k
  end.

Fixpoint store_bytes (m : mem) (p : Z) (bs : list byte) : mem :=
  match bs with
  | [] => m
  | b :: tl => store_bytes (upd m p b) (p + 1) tl
  end.

Fixpoint load_bytes (m : mem) (p : Z) (n : nat) : list byte :=
  match n with
  | O => []
  | S k => m p :: load_bytes m (p + 1) k
  end.

(** Unsigned little-endian load and store of an [n]-byte integer. *)
Definition load_uint (n : nat) (m : mem) (p : Z) : Z :=
  le_combine (load_bytes m p n).

Definition store_uint (n : nat) (m : mem) (p : Z) (v : Z) : mem :=
  store_bytes m p (le_split n v).

Inductive dbg_arg : Type :=
| ArgStr (s : string)
| ArgInt (z : Z).

(** What a run leaves behind besides memory: the [DBGLOG_ERROR] calls with
    their format string and arguments, and one ghost mark [Verify cur]
    each time the heap walker hands block [cur] to [check_poison_block]. *)
Inductive event : Type :=
| DBGLOG_ERROR (fmt : string) (args : list dbg_arg)
| Verify (cur : Z).

(** State (memory) and writer (events) in one. *)
Definition M (A : Type) : Type := mem -> A * mem * list event.

Definition ret {A} (a : A) : M A := fun m => (a, m, []).

Definition bind {A B} (c : M A) (k : A -> M B) : M B :=
  fun m =>
    let '(a, m1, l1) := c m in
    let '(b, m2, l2) := k a m1 in
    (b, m2, l1 ++ l2).

Notation "x <- c ;; k" := (bind c (fun x => k))
  (at level 61, c at next level, right associativity).
Notation "c ;;; k" := (bind c (fun _ => k))
  (at level 61, right associativity).

Definition read_mem : M mem := fun m => (m, m, []).
Definition emit (e : event) : M unit := fun m => (tt, m, [e]).

Definition memset (p : Z) (c : Z) (n : Z) : M unit :=
  fun m => (tt, fill m p (byte.of_Z c) (Z.to_nat n), []).

Definition value {A} (r : A * mem * list event) : A := fst (fst r).
Definition final {A} (r : A * mem * list event) : mem := snd (fst r).
Definition trace {A} (r : A * mem * list event) : list event := snd r.

(** The external block allocator: the three primitives the facade calls. *)
Record allocator : Type := {
  umm_malloc  : Z -> M Z;
  umm_realloc : Z -> Z -> M Z;
  umm_free    : Z -> M unit
}.

(** ** The code *)

Definition POISON_BYTE : Z := 0xa5.

Definition NULL : Z := 0.

(** Modelled from the spec: [DBGLOG_32_BIT_PTR] comes from dbglog.h, which
    is not among the sources.  A report carries the byte address of the
    region; the macro keeps its low 32 bits for the [0x%08x] format. *)
Definition DBGLOG_32_BIT_PTR (p : Z) : Z := p mod 2 ^ 32.

Section Poison.

Context (cfg : config).

Local Notation "'BEFORE'" := (UMM_POISON_SIZE_BEFORE cfg).
Local Notation "'AFTER'" := (UMM_POISON_SIZE_AFTER cfg).
Local Notation "'LEN'" := (sizeof_LEN_TYPE cfg).

(** Arithmetic in [size_t]. *)
Definition wrap_size (z : Z) : Z := z mod 2 ^ SIZE_BITS cfg.

(** The cast [(UMM_POISONED_BLOCK_LEN_TYPE)]. *)
Definition cast_len (z : Z) : Z := z mod 2 ^ (8 * LEN).

Definition load_len (m : mem) (p : Z) : Z := load_uint (Z.to_nat LEN) m p.

Definition store_len (p : Z) (v : Z) : M unit :=
  fun m => (tt, store_uint (Z.to_nat LEN) m p v, []).

(** Modelled from the spec: the block table of umm_malloc.c is not among
    the sources.  It is addressable by index with a fixed byte stride, and
    each block exposes a successor-index field with one reserved high bit
    as the free/used tag.  [UMM_BLOCK c] is [&UMM_BLOCK(c)]; the [next]
    field is the 16-bit integer at the start of the block ([cur] and [c]
    are 16-bit in the source); [body_data] is [pblock->body.data]. *)
Definition UMM_BLOCK (c : Z) : Z := UMM_HEAP cfg + c * UMM_BLOCKSIZE cfg.

Definition header_next (m : mem) (pblock : Z) : Z := load_uint 2 m pblock.

Definition UMM_NBLOCK (m : mem) (c : Z) : Z := header_next m (UMM_BLOCK c).

Definition body_data (pblock : Z) : Z := pblock + offsetof_body cfg.

Definition poison_size (s : Z) : Z :=
  if s =? 0 then 0 else wrap_size (BEFORE + LEN + AFTER).

Fixpoint dump_mem_loop (m : mem) (ptr : Z) (len : nat) : list event :=
  match len with
  | O => []
  | S k => DBGLOG_ERROR " 0x%.2x" [ArgInt (byte.unsigned (m ptr))]
           :: dump_mem_loop m (ptr + 1) k
  end.

Definition dump_mem (ptr : Z) (len : Z) : M unit :=
  fun m => (tt, m, dump_mem_loop m ptr (Z.to_nat len)).

Definition put_poison (ptr : Z) (poison_size : Z) : M unit :=
  memset ptr POISON_BYTE poison_size.

(** The [for] loop of [check_poison]: [true] unless some byte from index
    [i] on differs from the sentinel. *)
Fixpoint check_poison_loop (m : mem) (ptr i : Z) (n : nat) : bool :=
  match n with
  | O => true
  | S k =>
      if negb (byte.unsigned (m (ptr + i)) =? POISON_BYTE) then false
      else check_poison_loop m ptr (i + 1) k
  end.

Definition check_poison (ptr : Z) (poison_size : Z) (where_ : string) : M bool :=
  m <- read_mem ;;
  let ok := check_poison_loop m ptr 0 (Z.to_nat poison_size) in
  (if negb ok then
     emit (DBGLOG_ERROR "No poison %s block at: 0x%08x, actual data:"
             [ArgStr where_; ArgInt (DBGLOG_32_BIT_PTR ptr)]) ;;;
     dump_mem ptr poison_size ;;;
     emit (DBGLOG_ERROR "\n" [])
   else ret tt) ;;;
  ret ok.

Definition check_poison_block (pblock : Z) : M bool :=
  m <- read_mem ;;
  if negb (Z.land (header_next m pblock) (UMM_FREELIST_MASK cfg) =? 0) then
    emit (DBGLOG_ERROR "check_poison_block is called for free block 0x%08x\n"
            [ArgInt (DBGLOG_32_BIT_PTR pblock)]) ;;;
    ret true
  else
    let pc := body_data pblock in
    ok1 <- check_poison (pc + LEN) BEFORE "before" ;;
    if negb ok1 then ret false
    else
      m' <- read_mem ;;
      ok2 <- check_poison (pc + load_len m' pc - AFTER) AFTER "after" ;;
      if negb ok2 then ret false else ret true.

Definition get_poisoned (ptr : Z) (size_w_poison : Z) : M Z :=
  if negb (size_w_poison =? 0) && negb (ptr =? NULL) then
    put_poison (ptr + LEN) BEFORE ;;;
    put_poison (ptr + size_w_poison - AFTER) AFTER ;;;
    store_len ptr (cast_len size_w_poison) ;;;
    ret (ptr + LEN + BEFORE)
  else ret ptr.

(** The byte offset of a pointer from the heap base is a [ptrdiff_t];
    dividing it by [UMM_BLOCKSIZE], which is [sizeof(umm_block)] and so a
    [size_t], converts it to [size_t] first: a negative offset wraps
    around, a non-negative one is unchanged. *)
Definition offset_as_size (d : Z) : Z :=
  if d <? 0 then wrap_size d else d.

(** The block index is the truncating (unsigned) division of that offset,
    then converted to [uint16_t]. *)
Definition get_unpoisoned (ptr : Z) : M Z :=
  if negb (ptr =? NULL) then
    let ptr := ptr - (LEN + BEFORE) in
    let c := Z.quot (offset_as_size (ptr - UMM_HEAP cfg)) (UMM_BLOCKSIZE cfg)
             mod 2 ^ 16 in
    check_poison_block (UMM_BLOCK c) ;;;
    ret ptr
  else ret ptr.

Section Facade.

Context (alloc : allocator).

Definition umm_poison_malloc (size : Z) : M Z :=
  let size := wrap_size (size + poison_size size) in
  r <- umm_malloc alloc size ;;
  get_poisoned r size.

Definition umm_poison_calloc (num item_size : Z) : M Z :=
  let size := wrap_size (item_size * num) in
  let size := wrap_size (size + poison_size size) in
  r <- umm_malloc alloc size ;;
  (if negb (NULL =? r) then memset r 0 size else ret tt) ;;;
  get_poisoned r size.

Definition umm_poison_realloc (ptr : Z) (size : Z) : M Z :=
  ptr <- get_unpoisoned ptr ;;
  let size := wrap_size (size + poison_size size) in
  r <- umm_realloc alloc ptr size ;;
  get_poisoned r size.

Definition umm_poison_free (ptr : Z) : M unit :=
  ptr <- get_unpoisoned ptr ;;
  umm_free alloc ptr.

End Facade.

(** The [while] loop of [umm_poison_check].  The C loop has no bound; the
    model counts iterations down from [fuel] and answers [None] when it
    runs out.  [ok] is the local of the same name. *)
Fixpoint poison_check_loop (fuel : nat) (cur : Z) (ok : bool) : M (option bool) :=
  match fuel with
  | O => ret None
  | S k =>
      m <- read_mem ;;
      if negb (Z.land (UMM_NBLOCK m cur) (UMM_BLOCKNO_MASK cfg) =? 0) then
        if Z.land (UMM_NBLOCK m cur) (UMM_FREELIST_MASK cfg) =? 0 then
          emit (Verify cur) ;;;
          ok <- check_poison_block (UMM_BLOCK cur) ;;
          if negb ok then ret (Some ok)
          else
            m' <- read_mem ;;
            poison_check_loop k (Z.land (UMM_NBLOCK m' cur) (UMM_BLOCKNO_MASK cfg)) ok
        else
          poison_check_loop k (Z.land (UMM_NBLOCK m cur) (UMM_BLOCKNO_MASK cfg)) ok
      else ret (Some ok)
  end.

(** [UMM_CHECK_INITIALIZED] and the critical-section macros expand to
    nothing observable on an initialised heap in a sequential run. *)
Definition umm_poison_check (fuel : nat) : M (option bool) :=
  m <- read_mem ;;
  poison_check_loop fuel (Z.land (UMM_NBLOCK m 0) (UMM_BLOCKNO_MASK cfg)) true.

End Poison.

(** ** Vocabulary of the statements *)

(** Every byte of [p, p+n) holds the sentinel. *)
Definition all_poison (m : mem) (p n : Z) : Prop :=
  forall a, p <= a < p + n -> byte.unsigned (m a) = POISON_BYTE.

(** What [check_poison] prints when it finds a foreign byte. *)
Definition no_poison_report (m : mem) (ptr n : Z) (where_ : string) : list event :=
  DBGLOG_ERROR "No poison %s block at: 0x%08x, actual data:"
    [ArgStr where_; ArgInt (DBGLOG_32_BIT_PTR ptr)]
  :: dump_mem_loop m ptr (Z.to_nat n) ++ [DBGLOG_ERROR "\n" []].

Section Vocabulary.

Context (cfg : config).

Local Notation "'BEFORE'" := (UMM_POISON_SIZE_BEFORE cfg).
Local Notation "'AFTER'" := (UMM_POISON_SIZE_AFTER cfg).
Local Notation "'LEN'" := (sizeof_LEN_TYPE cfg).

(** The tag test of [check_poison_block] and of the heap walker. *)
Definition is_free (m : mem) (pblock : Z) : bool :=
  negb (Z.land (header_next m pblock) (UMM_FREELIST_MASK cfg) =? 0).

(** Where the verifier looks for the two guards of the block at [pblock]. *)
Definition pre_guard (pblock : Z) : Z := body_data cfg pblock + LEN.

Definition post_guard (m : mem) (pblock : Z) : Z :=
  body_data cfg pblock + load_len cfg m (body_data cfg pblock) - AFTER.

(** Both guards of the used block at [pblock] are intact: the bytes the
    verifier will look at all hold the sentinel. *)
Definition guards_intact (m : mem) (pblock : Z) : Prop :=
  all_poison m (pre_guard pblock) BEFORE /\
  all_poison m (post_guard m pblock) AFTER.

(** The block index [get_unpoisoned] derives from a raw pointer. *)
Definition block_of (raw : Z) : Z :=
  Z.quot (offset_as_size cfg (raw - UMM_HEAP cfg)) (UMM_BLOCKSIZE cfg) mod 2 ^ 16.

(** [UMM_NBLOCK(cur) & UMM_BLOCKNO_MASK]. *)
Definition next_block (m : mem) (cur : Z) : Z :=
  Z.land (UMM_NBLOCK cfg m cur) (UMM_BLOCKNO_MASK cfg).

Definition used (m : mem) (cur : Z) : bool :=
  negb (is_free m (UMM_BLOCK cfg cur)).

(** The blocks the loop body runs on when the walk starts at [cur]: each
    has a successor, and the walk ends at the first block that has none. *)
Inductive block_list (m : mem) : Z -> list Z -> Prop :=
| block_list_end cur :
    next_block m cur = 0 -> block_list m cur []
| block_list_cons cur l :
    next_block m cur <> 0 ->
    block_list m (next_block m cur) l ->
    block_list m cur (cur :: l).

(** Memory after the three writes of [get_poisoned], in program order:
    pre-guard, post-guard, length field. *)
Definition stamped (ptr size : Z) (m : mem) : mem :=
  store_uint (Z.to_nat LEN)
    (fill (fill m (ptr + LEN) (byte.of_Z POISON_BYTE) (Z.to_nat BEFORE))
       (ptr + size - AFTER) (byte.of_Z POISON_BYTE) (Z.to_nat AFTER))
    ptr (cast_len cfg size).

End Vocabulary.

(** ** Heaps and an allocator to run the code on *)

Definition zero_heap : mem := fun _ => Byte.x00.

Definition set_next (c v : Z) (m : mem) : mem :=
  store_uint 2 m (UMM_BLOCK cfg32 c) v.

(** [get_poisoned] applied to the body of block [c]. *)
Definition stamp (c total : Z) (m : mem) : mem :=
  final (get_poisoned cfg32 (body_data cfg32 (UMM_BLOCK cfg32 c)) total m).

(** Blocks 0 -> 1 -> 8, block 1 in use. *)
Definition linked_heap : mem :=
  set_next 8 0 (set_next 1 8 (set_next 0 1 zero_heap)).

(** Blocks 0 -> 1 -> 4 -> 6 -> 8: block 1 holds a live 10-byte allocation,
    block 4 is free, block 6 holds a live 2-byte allocation, block 8 ends
    the list. *)
Definition demo_heap : mem :=
  stamp 6 12 (stamp 1 20
    (set_next 8 0 (set_next 6 8 (set_next 4 0x8006 (set_next 1 4
      (set_next 0 1 zero_heap)))))).

(** Blocks 0 -> 1 -> 8195: block 1 heads a run of 8194 blocks, room for an
    allocation of 65542 bytes in all. *)
Definition big_heap : mem :=
  set_next 8195 0 (set_next 1 8195 (set_next 0 1 zero_heap)).

(** A heap of zero bytes in which block 1 carries the free tag: its guards
    hold no sentinel at all. *)
Definition free_block_heap : mem := set_next 1 0x8002 zero_heap.

(** A one-slot allocator: every non-empty request gets the body of block
    1, linked in as the only block of the list; an empty request gets
    [NULL], and resizing to nothing releases the slot. *)
Definition slot : Z := body_data cfg32 (UMM_BLOCK cfg32 1).

Definition take_slot (size : Z) : M Z := fun m =>
  if size =? 0 then (NULL, m, [])
  else (slot, set_next 8 0 (set_next 1 8 (set_next 0 1 m)), []).

Definition drop_slot : M unit := fun m => (tt, set_next 1 0x8008 m, []).

Definition one_slot : allocator := {|
  umm_malloc := take_slot;
  umm_realloc := fun _ size =>
    if size =? 0 then (drop_slot ;;; ret NULL) else take_slot size;
  umm_free := fun _ => drop_slot
|}.

(** One line of [dump_mem]'s output. *)
Definition dump_entry (b : byte) : event :=
  DBGLOG_ERROR " 0x%.2x" [ArgInt (byte.unsigned b)].

(** Blocks 0 -> 1 -> 1 -> ...: block 1, a live 10-byte allocation, names
    itself as its successor. *)
Definition cyclic_heap : mem :=
  stamp 1 20 (set_next 1 1 (set_next 0 1 zero_heap)).

(** An allocator that is out of memory. *)
Definition no_memory : allocator := {|
  umm_malloc := fun _ => ret NULL;
  umm_realloc := fun _ _ => ret NULL;
  umm_free := fun _ => ret tt
|}.

(** * Proofs *)

(** Case analysis on every integer comparison in the goal. *)
Ltac zcases :=
  repeat match goal with
  | |- context [Z.leb ?x ?y] => destruct (Z.leb_spec x y)
  | |- context [Z.ltb ?x ?y] => destruct (Z.ltb_spec x y)
  | |- context [Z.eqb ?x ?y] => destruct (Z.eqb_spec x y)
  end; cbn [andb orb negb].

(** ** Memory lemmas *)

Lemma upd_same (m : mem) a b : upd m a b a = b.
Proof. unfold upd. now rewrite Z.eqb_refl. Qed.

Lemma upd_other (m : mem) a b x : x <> a -> upd m a b x = m x.
Proof. unfold upd. intros H. apply Z.eqb_neq in H. now rewrite H. Qed.

Lemma fill_spec n : forall (m : mem) p b a,
  fill m p b n a = if (p <=? a) && (a <? p + Z.of_nat n) then b else m a.
Proof.
  induction n as [|n IH]; intros m p b a.
  - cbn [fill]. zcases; try reflexivity; lia.
  - cbn [fill]. rewrite IH. unfold upd. zcases; try reflexivity; lia.
Qed.

Lemma fill_in (m : mem) p b n a :
  p <= a < p + n -> fill m p b (Z.to_nat n) a = b.
Proof.
  intros H. rewrite fill_spec. zcases; try reflexivity; lia.
Qed.

Lemma fill_out (m : mem) p b n a :
  a < p \/ p + n <= a -> fill m p b (Z.to_nat n) a = m a.
Proof.
  intros H. rewrite fill_spec. zcases; try reflexivity; lia.
Qed.

Lemma store_bytes_out bs : forall (m : mem) p a,
  a < p \/ p + Z.of_nat (List.length bs) <= a -> store_bytes m p bs a = m a.
Proof.
  induction bs as [|b bs IH]; intros m p a H; cbn [store_bytes].
  - reflexivity.
  - cbn [List.length] in H. rewrite IH by lia. apply upd_other. lia.
Qed.

Lemma load_store_bytes bs : forall (m : mem) p,
  load_bytes (store_bytes m p bs) p (List.length bs) = bs.
Proof.
  induction bs as [|b bs IH]; intros m p; cbn [store_bytes load_bytes List.length].
  - reflexivity.
  - rewrite IH. f_equal. rewrite store_bytes_out by lia. apply upd_same.
Qed.

Lemma load_bytes_ext n : forall (m m' : mem) p,
  (forall a, p <= a < p + Z.of_nat n -> m a = m' a) ->
  load_bytes m p n = load_bytes m' p n.
Proof.
  induction n as [|n IH]; intros m m' p H; cbn [load_bytes].
  - reflexivity.
  - f_equal.
    + apply H. lia.
    + apply IH. intros a Ha. apply H. lia.
Qed.

Lemma load_store_uint n (m : mem) p v :
  load_uint n (store_uint n m p v) p = v mod 2 ^ (8 * Z.of_nat n).
Proof.
  unfold load_uint, store_uint.
  rewrite <- (length_le_split n v) at 2.
  rewrite load_store_bytes, le_combine_split. f_equal. f_equal. lia.
Qed.

Lemma store_uint_out n (m : mem) p v a :
  a < p \/ p + Z.of_nat n <= a -> store_uint n m p v a = m a.
Proof.
  intros H. unfold store_uint. apply store_bytes_out.
  now rewrite length_le_split.
Qed.

Lemma load_uint_ext n (m m' : mem) p :
  (forall a, p <= a < p + Z.of_nat n -> m a = m' a) ->
  load_uint n m p = load_uint n m' p.
Proof. intros H. unfold load_uint. f_equal. now apply load_bytes_ext. Qed.

(** ** The verifier, step by step *)

Lemma check_poison_loop_spec n : forall (m : mem) ptr i,
  check_poison_loop m ptr i n = true <->
  (forall a, ptr + i <= a < ptr + i + Z.of_nat n ->
             byte.unsigned (m a) = POISON_BYTE).
Proof.
  induction n as [|n IH]; intros m ptr i; cbn [check_poison_loop].
  - split; [intros _ a Ha; lia | reflexivity].
  - destruct (Z.eqb_spec (byte.unsigned (m (ptr + i))) POISON_BYTE) as [E|E];
      cbn [negb].
    + rewrite IH. split; intros H a Ha.
      * destruct (Z.eq_dec a (ptr + i)) as [->|Hne]; [exact E|].
        apply H. lia.
      * apply H. lia.
    + split; [discriminate|]. intros H. exfalso. apply E, H. lia.
Qed.

Lemma check_poison_loop_true_iff (m : mem) p n :
  check_poison_loop m p 0 (Z.to_nat n) = true <-> all_poison m p n.
Proof.
  rewrite check_poison_loop_spec. unfold all_poison.
  split; intros H a Ha; apply H; lia.
Qed.

Lemma check_poison_run ptr n where_ (m : mem) :
  check_poison ptr n where_ m =
  if check_poison_loop m ptr 0 (Z.to_nat n) then (true, m, [])
  else (false, m, no_poison_report m ptr n where_).
Proof.
  unfold check_poison, bind, read_mem, emit, dump_mem, ret, no_poison_report.
  destruct (check_poison_loop m ptr 0 (Z.to_nat n)); cbn.
  - reflexivity.
  - now rewrite app_nil_r.
Qed.

Section Verifier.

Context (cfg : config).

Local Notation "'BEFORE'" := (UMM_POISON_SIZE_BEFORE cfg).
Local Notation "'AFTER'" := (UMM_POISON_SIZE_AFTER cfg).
Local Notation "'LEN'" := (sizeof_LEN_TYPE cfg).

Lemma check_poison_block_run pblock (m : mem) :
  check_poison_block cfg pblock m =
  if is_free cfg m pblock then
    (true, m,
     [DBGLOG_ERROR "check_poison_block is called for free block 0x%08x\n"
        [ArgInt (DBGLOG_32_BIT_PTR pblock)]])
  else if negb (check_poison_loop m (pre_guard cfg pblock) 0 (Z.to_nat BEFORE)) then
    (false, m, no_poison_report m (pre_guard cfg pblock) BEFORE "before")
  else if negb (check_poison_loop m (post_guard cfg m pblock) 0 (Z.to_nat AFTER)) then
    (false, m, no_poison_report m (post_guard cfg m pblock) AFTER "after")
  else (true, m, []).
Proof.
  unfold check_poison_block, is_free, pre_guard, post_guard.
  unfold bind at 1. unfold read_mem at 1.
  destruct (negb (Z.land (header_next m pblock) (UMM_FREELIST_MASK cfg) =? 0)).
  - reflexivity.
  - unfold bind at 1. rewrite check_poison_run.
    destruct (check_poison_loop m (body_data cfg pblock + LEN) 0 (Z.to_nat BEFORE));
      cbn [negb].
    + unfold bind at 1. unfold read_mem at 1. unfold bind at 1.
      rewrite check_poison_run.
      destruct (check_poison_loop m _ 0 (Z.to_nat AFTER)); cbn [negb]; cbn.
      * reflexivity.
      * now rewrite app_nil_r.
    + cbn. now rewrite app_nil_r.
Qed.

(** The verifier never writes. *)
Lemma check_poison_block_final pblock (m : mem) :
  final (check_poison_block cfg pblock m) = m.
Proof.
  rewrite check_poison_block_run.
  repeat match goal with |- context [if ?b then _ else _] => destruct b end;
    reflexivity.
Qed.

Lemma check_poison_block_intact pblock (m : mem) :
  is_free cfg m pblock = false -> guards_intact cfg m pblock ->
  check_poison_block cfg pblock m = (true, m, []).
Proof.
  intros Hu [H1 H2]. rewrite check_poison_block_run, Hu.
  apply check_poison_loop_true_iff in H1, H2. now rewrite H1, H2.
Qed.

Lemma check_poison_block_true_iff pblock (m : mem) :
  is_free cfg m pblock = false ->
  (value (check_poison_block cfg pblock m) = true <-> guards_intact cfg m pblock).
Proof.
  intros Hu. split.
  - rewrite check_poison_block_run, Hu. unfold guards_intact.
    rewrite <- !check_poison_loop_true_iff.
    destruct (check_poison_loop m (pre_guard cfg pblock) 0 (Z.to_nat BEFORE));
      cbn [negb]; [|discriminate].
    destruct (check_poison_loop m (post_guard cfg m pblock) 0 (Z.to_nat AFTER));
      cbn [negb]; [|discriminate].
    now split.
  - intros H. now rewrite check_poison_block_intact.
Qed.

End Verifier.

(** ** Geometry, misuse and pointer translation *)

Lemma cfg32_ok : config_ok cfg32.
Proof. constructor; cbn; lia. Defined.

Lemma get_unpoisoned_run cfg ptr (m : mem) :
  ptr <> NULL ->
  let raw := ptr - (sizeof_LEN_TYPE cfg + UMM_POISON_SIZE_BEFORE cfg) in
  get_unpoisoned cfg ptr m =
  (raw, m, trace (check_poison_block cfg (UMM_BLOCK cfg (block_of cfg raw)) m)).
Proof.
  intros Hp raw. unfold get_unpoisoned, block_of.
  destruct (Z.eqb_spec ptr NULL) as [E|_]; [contradiction|]. cbn [negb].
  fold raw. unfold bind, ret.
  pose proof (check_poison_block_final cfg
                (UMM_BLOCK cfg (Z.quot (offset_as_size cfg (raw - UMM_HEAP cfg))
                                  (UMM_BLOCKSIZE cfg) mod 2 ^ 16)) m) as Hf.
  destruct (check_poison_block cfg _ m) as [[b m1] l1].
  cbn in Hf. subst m1. cbn. now rewrite app_nil_r.
Qed.

Lemma poison_size_nonzero (cfg : config) (s : Z) :
  config_ok cfg -> s <> 0 ->
  poison_size cfg s =
  sizeof_LEN_TYPE cfg + UMM_POISON_SIZE_BEFORE cfg + UMM_POISON_SIZE_AFTER cfg.
Proof.
  intros Hok Hs. unfold poison_size.
  destruct (Z.eqb_spec s 0) as [E|_]; [contradiction|].
  unfold wrap_size. destruct Hok. rewrite Z.mod_small; lia.
Qed.

(** C6 -- Geometry Calculator.  In a sane configuration [poison_size]
    answers 0 for a request of 0 bytes and, for every other request, the
    same constant: length-field size + pre-guard size + post-guard size,
    whatever the requested size.  It is a total function of its argument
    alone: it reads no memory and emits nothing. *)
Theorem poison_size_geometry (cfg : config) :
  config_ok cfg ->
  poison_size cfg 0 = 0 /\
  forall s, s <> 0 ->
    poison_size cfg s =
    sizeof_LEN_TYPE cfg + UMM_POISON_SIZE_BEFORE cfg + UMM_POISON_SIZE_AFTER cfg.
Proof.
  intros Hok. split; [reflexivity|]. intros s Hs.
  now apply poison_size_nonzero.
Qed.

Lemma poison_size_geometry_witness :
  config_ok cfg32 /\ poison_size cfg32 0 = 0 /\ poison_size cfg32 10 = 2 + 4 + 4.
Proof.
  split; [exact cfg32_ok|].
  destruct (poison_size_geometry cfg32 cfg32_ok) as [H0 H].
  split; [exact H0|]. apply (H 10). discriminate.
Defined.

(** C7 -- Free-block misuse.  Handed a block whose free-tag bit is set,
    [check_poison_block] prints the usage error and nothing else, and
    answers [true] (pass), not [false].  It looks at no guard byte: in any
    other memory in which the block's [next] field reads the same, the
    answer and the output are the same. *)
Theorem check_poison_block_free_block (cfg : config) (pblock : Z) (m : mem) :
  Z.land (header_next m pblock) (UMM_FREELIST_MASK cfg) <> 0 ->
  check_poison_block cfg pblock m =
    (true, m,
     [DBGLOG_ERROR "check_poison_block is called for free block 0x%08x\n"
        [ArgInt (DBGLOG_32_BIT_PTR pblock)]]) /\
  forall m' : mem,
    header_next m' pblock = header_next m pblock ->
    value (check_poison_block cfg pblock m') = true /\
    trace (check_poison_block cfg pblock m') =
    trace (check_poison_block cfg pblock m).
Proof.
  intros Hfree.
  assert (Hrun : forall m' : mem,
             header_next m' pblock = header_next m pblock ->
             check_poison_block cfg pblock m' =
             (true, m',
              [DBGLOG_ERROR "check_poison_block is called for free block 0x%08x\n"
                 [ArgInt (DBGLOG_32_BIT_PTR pblock)]])).
  { intros m' E. rewrite check_poison_block_run. unfold is_free. rewrite E.
    destruct (Z.eqb_spec (Z.land (header_next m pblock) (UMM_FREELIST_MASK cfg)) 0);
      [contradiction | reflexivity]. }
  split; [now apply Hrun|].
  intros m' E. rewrite (Hrun m' E), (Hrun m eq_refl). now split.
Qed.

Lemma check_poison_block_free_block_witness :
  Z.land (header_next free_block_heap (UMM_BLOCK cfg32 1)) (UMM_FREELIST_MASK cfg32) <> 0 /\
  value (check_poison_block cfg32 (UMM_BLOCK cfg32 1) free_block_heap) = true.
Proof.
  assert (H : Z.land (header_next free_block_heap (UMM_BLOCK cfg32 1))
                (UMM_FREELIST_MASK cfg32) <> 0) by (vm_compute; discriminate).
  split; [exact H|].
  destruct (check_poison_block_free_block cfg32 (UMM_BLOCK cfg32 1) free_block_heap H)
    as [Hrun _].
  now rewrite Hrun.
Defined.

(** C5 -- Fail-open pointer translation.  A null pointer passes through
    [get_unpoisoned] untouched and nothing is checked.  For a non-null
    user pointer, in every memory, [get_unpoisoned] runs
    [check_poison_block] on the block the raw pointer resolves to, adds
    exactly that check's output to the trace (when the check fails, its
    "before" or "after" report), leaves memory alone and returns the
    pointer minus (length-field size + pre-guard size) whatever the check
    answered; the release and the resize that follow are called with that
    raw pointer all the same, after the check's output. *)
Theorem get_unpoisoned_fail_open (cfg : config) (alloc : allocator) (ptr : Z) (m : mem) :
  get_unpoisoned cfg NULL m = (NULL, m, []) /\
  (ptr <> NULL ->
   let raw := ptr - (sizeof_LEN_TYPE cfg + UMM_POISON_SIZE_BEFORE cfg) in
   let pblock := UMM_BLOCK cfg (block_of cfg raw) in
   let checked := check_poison_block cfg pblock m in
   get_unpoisoned cfg ptr m = (raw, m, trace checked) /\
   (value checked = false ->
    trace checked =
      no_poison_report m (pre_guard cfg pblock) (UMM_POISON_SIZE_BEFORE cfg) "before" \/
    trace checked =
      no_poison_report m (post_guard cfg m pblock) (UMM_POISON_SIZE_AFTER cfg) "after") /\
   umm_poison_free cfg alloc ptr m =
     (let '(u, m1, l1) := umm_free alloc raw m in (u, m1, trace checked ++ l1)) /\
   forall size,
     umm_poison_realloc cfg alloc ptr size m =
     (let total := wrap_size cfg (size + poison_size cfg size) in
      let '(r, m1, l1) := umm_realloc alloc raw total m in
      let '(u, m2, l2) := get_poisoned cfg r total m1 in
      (u, m2, trace checked ++ l1 ++ l2))).
Proof.
  split; [reflexivity|]. intros Hp raw pblock checked.
  pose proof (get_unpoisoned_run cfg ptr m Hp) as Hrun. cbv zeta in Hrun.
  fold raw in Hrun. fold pblock in Hrun. fold checked in Hrun.
  split; [exact Hrun|]. split; [|split].
  - subst checked. rewrite check_poison_block_run.
    destruct (is_free cfg m pblock); [discriminate|].
    destruct (check_poison_loop m (pre_guard cfg pblock) 0 _); cbn [negb];
      [|intros _; now left].
    destruct (check_poison_loop m (post_guard cfg m pblock) 0 _); cbn [negb];
      [discriminate | intros _; now right].
  - unfold umm_poison_free, bind. rewrite Hrun. reflexivity.
  - intros size. unfold umm_poison_realloc. unfold bind at 1. rewrite Hrun.
    unfold bind.
    destruct (umm_realloc alloc raw _ m) as [[r m1] l1].
    destruct (get_poisoned cfg r _ m1) as [[u m2] l2]. reflexivity.
Qed.

(** Block 1 of the all-zero heap is used and holds no sentinel: the check
    fails, its report is what the translation prints, and the pointer is
    translated all the same. *)
Lemma get_unpoisoned_fail_open_witness :
  slot + 6 <> NULL /\
  block_of cfg32 slot = 1 /\
  get_unpoisoned cfg32 (slot + 6) zero_heap =
  (slot, zero_heap, no_poison_report zero_heap (slot + 2) 4 "before").
Proof.
  assert (H : slot + 6 <> NULL) by (vm_compute; discriminate).
  split; [exact H|]. split; [reflexivity|].
  destruct (get_unpoisoned_fail_open cfg32 one_slot (slot + 6) zero_heap) as [_ Hnn].
  destruct (Hnn H) as [Hrun _]. rewrite Hrun. reflexivity.
Defined.

(** ** The heap walker, step by step *)

Section Walker.

Context (cfg : config).

Lemma check_poison_block_value_trace pblock (m : mem) :
  check_poison_block cfg pblock m =
  (value (check_poison_block cfg pblock m), m,
   trace (check_poison_block cfg pblock m)).
Proof.
  pose proof (check_poison_block_final cfg pblock m) as Hf.
  destruct (check_poison_block cfg pblock m) as [[b m1] l1].
  cbn in Hf. now subst m1.
Qed.

Lemma poison_check_loop_final fuel : forall cur ok (m : mem),
  final (poison_check_loop cfg fuel cur ok m) = m.
Proof.
  induction fuel as [|k IH]; intros cur ok m; [reflexivity|].
  cbn [poison_check_loop]. unfold bind at 1. unfold read_mem at 1.
  destruct (negb (Z.land (UMM_NBLOCK cfg m cur) (UMM_BLOCKNO_MASK cfg) =? 0));
    [|reflexivity].
  destruct (Z.land (UMM_NBLOCK cfg m cur) (UMM_FREELIST_MASK cfg) =? 0).
  - unfold bind at 1. unfold emit at 1. unfold bind at 1.
    rewrite check_poison_block_value_trace.
    destruct (value (check_poison_block cfg (UMM_BLOCK cfg cur) m)); cbn [negb].
    + unfold bind at 1. unfold read_mem at 1.
      specialize (IH (Z.land (UMM_NBLOCK cfg m cur) (UMM_BLOCKNO_MASK cfg)) true m).
      destruct (poison_check_loop cfg k _ true m) as [[r m1] l1]. exact IH.
    + reflexivity.
  - specialize (IH (Z.land (UMM_NBLOCK cfg m cur) (UMM_BLOCKNO_MASK cfg)) ok m).
    destruct (poison_check_loop cfg k _ ok m) as [[r m1] l1]. exact IH.
Qed.

(** One turn of the loop, with the monad unfolded. *)
Lemma poison_check_loop_step k cur ok (m : mem) :
  poison_check_loop cfg (S k) cur ok m =
  if next_block cfg m cur =? 0 then (Some ok, m, [])
  else if used cfg m cur then
    let checked := check_poison_block cfg (UMM_BLOCK cfg cur) m in
    if value checked then
      let rest := poison_check_loop cfg k (next_block cfg m cur) true m in
      (value rest, m, Verify cur :: trace checked ++ trace rest)
    else (Some false, m, Verify cur :: trace checked)
  else poison_check_loop cfg k (next_block cfg m cur) ok m.
Proof.
  cbn [poison_check_loop]. unfold bind at 1. unfold read_mem at 1.
  unfold used, is_free, next_block, UMM_NBLOCK.
  destruct (Z.land (header_next m (UMM_BLOCK cfg cur)) (UMM_BLOCKNO_MASK cfg) =? 0);
    cbn [negb]; [reflexivity|].
  destruct (Z.land (header_next m (UMM_BLOCK cfg cur)) (UMM_FREELIST_MASK cfg) =? 0);
    cbn [negb].
  - unfold bind at 1. unfold emit at 1. unfold bind at 1.
    rewrite check_poison_block_value_trace. cbv zeta.
    destruct (value (check_poison_block cfg (UMM_BLOCK cfg cur) m)); cbn [negb].
    + unfold bind at 1. unfold read_mem at 1.
      pose proof (poison_check_loop_final k
                    (Z.land (header_next m (UMM_BLOCK cfg cur)) (UMM_BLOCKNO_MASK cfg))
                    true m) as Hf.
      unfold UMM_NBLOCK.
      destruct (poison_check_loop cfg k _ true m) as [[r m1] l1].
      cbn in Hf. subst m1. cbn. reflexivity.
    + cbn. now rewrite app_nil_r.
  - destruct (poison_check_loop cfg k _ ok m) as [[r m1] l1]. reflexivity.
Qed.

Lemma umm_poison_check_unfold fuel (m : mem) :
  umm_poison_check cfg fuel m = poison_check_loop cfg fuel (next_block cfg m 0) true m.
Proof.
  unfold umm_poison_check, bind, read_mem, next_block.
  destruct (poison_check_loop cfg fuel _ true m) as [[r m1] l1]. reflexivity.
Qed.

(** The verifier leaves no [Verify] mark of its own. *)
Lemma check_poison_block_no_mark pblock (m : mem) c :
  ~ In (Verify c) (trace (check_poison_block cfg pblock m)).
Proof.
  rewrite check_poison_block_run.
  assert (Hd : forall n p, ~ In (Verify c) (dump_mem_loop m p n)).
  { induction n as [|n IH]; intros p H; [exact H|].
    destruct H as [H|H]; [discriminate | now apply IH in H]. }
  assert (Hr : forall p n w, ~ In (Verify c) (no_poison_report m p n w)).
  { intros p n w [H|H]; [discriminate|].
    apply in_app_or in H. destruct H as [H|[H|[]]];
      [now apply Hd in H | discriminate]. }
  repeat match goal with |- context [if ?b then _ else _] => destruct b end;
    cbn [trace snd]; try apply Hr.
  - intros [H|[]]; discriminate.
  - intros [].
Qed.

Lemma poison_check_loop_mark fuel : forall cur ok (m : mem) c,
  In (Verify c) (trace (poison_check_loop cfg fuel cur ok m)) ->
  next_block cfg m c <> 0.
Proof.
  induction fuel as [|k IH]; intros cur ok m c H; [destruct H|].
  rewrite poison_check_loop_step in H.
  destruct (Z.eqb_spec (next_block cfg m cur) 0) as [E|E]; [destruct H|].
  destruct (used cfg m cur).
  - cbv zeta in H.
    destruct (value (check_poison_block cfg (UMM_BLOCK cfg cur) m));
      cbn [trace snd] in H; destruct H as [H|H];
      try (injection H as <-; exact E).
    + apply in_app_or in H. destruct H as [H|H].
      * now apply check_poison_block_no_mark in H.
      * now apply IH in H.
    + now apply check_poison_block_no_mark in H.
  - now apply IH in H.
Qed.

End Walker.

Section WalkerRuns.

Context (cfg : config).

Lemma poison_check_loop_pass (m : mem) l cur :
  block_list cfg m cur l ->
  (forall c, In c l -> used cfg m c = true ->
             guards_intact cfg m (UMM_BLOCK cfg c)) ->
  forall fuel, (List.length l < fuel)%nat ->
  poison_check_loop cfg fuel cur true m =
  (Some true, m, map Verify (filter (used cfg m) l)).
Proof.
  intros Hl. induction Hl as [cur E | cur l E Hl IH]; intros Hok fuel Hfuel;
    (destruct fuel as [|k]; [cbn in Hfuel; lia|]);
    rewrite poison_check_loop_step.
  - rewrite E. reflexivity.
  - destruct (Z.eqb_spec (next_block cfg m cur) 0) as [E0|_]; [contradiction|].
    assert (Hrest : poison_check_loop cfg k (next_block cfg m cur) true m =
                    (Some true, m, map Verify (filter (used cfg m) l))).
    { apply IH; [|cbn in Hfuel; lia]. intros c Hc. apply Hok. now right. }
    cbn [filter]. destruct (used cfg m cur) eqn:Hu.
    + rewrite (check_poison_block_intact cfg (UMM_BLOCK cfg cur) m).
      * cbv zeta. cbn [value fst]. rewrite Hrest. reflexivity.
      * unfold used in Hu. now apply negb_true_iff in Hu.
      * apply Hok; [now left | exact Hu].
    + exact Hrest.
Qed.

Lemma block_list_cons_inv (m : mem) cur b l :
  block_list cfg m cur (b :: l) ->
  b = cur /\ next_block cfg m cur <> 0 /\
  block_list cfg m (next_block cfg m cur) l.
Proof. intros H. inversion H; subst. auto. Qed.

Lemma poison_check_loop_fail (m : mem) l1 c l2 : forall cur,
  block_list cfg m cur (l1 ++ c :: l2) ->
  (forall c', In c' l1 -> used cfg m c' = true ->
              guards_intact cfg m (UMM_BLOCK cfg c')) ->
  used cfg m c = true ->
  value (check_poison_block cfg (UMM_BLOCK cfg c) m) = false ->
  forall fuel, (List.length l1 < fuel)%nat ->
  poison_check_loop cfg fuel cur true m =
  (Some false, m,
   map Verify (filter (used cfg m) l1)
   ++ Verify c :: trace (check_poison_block cfg (UMM_BLOCK cfg c) m)).
Proof.
  induction l1 as [|b l1 IH]; intros cur Hl Hok Hu Hbad fuel Hfuel;
    (destruct fuel as [|k]; [cbn in Hfuel; lia|]);
    rewrite poison_check_loop_step; cbn [app] in Hl;
    apply block_list_cons_inv in Hl; destruct Hl as (-> & E & Hl');
    (destruct (Z.eqb_spec (next_block cfg m cur) 0) as [E0|_]; [contradiction|]).
  - rewrite Hu. cbv zeta. rewrite Hbad. reflexivity.
  - rename cur into b.
    assert (Hrest : poison_check_loop cfg k (next_block cfg m b) true m =
                    (Some false, m,
                     map Verify (filter (used cfg m) l1)
                     ++ Verify c :: trace (check_poison_block cfg (UMM_BLOCK cfg c) m))).
    { apply IH; auto; [|cbn in Hfuel; lia]. intros c' Hc'. apply Hok. now right. }
    cbn [filter]. destruct (used cfg m b) eqn:Hcur.
    + rewrite (check_poison_block_intact cfg (UMM_BLOCK cfg b) m).
      * cbv zeta. cbn [value fst]. rewrite Hrest. reflexivity.
      * unfold used in Hcur. now apply negb_true_iff in Hcur.
      * apply Hok; [now left | exact Hcur].
    + exact Hrest.
Qed.

(** A failing used block anywhere on the list makes the walk answer fail:
    either that block or an earlier one stops it. *)
Lemma poison_check_loop_reaches (m : mem) l : forall cur c,
  block_list cfg m cur l -> In c l -> used cfg m c = true ->
  value (check_poison_block cfg (UMM_BLOCK cfg c) m) = false ->
  forall fuel, (List.length l <= fuel)%nat ->
  value (poison_check_loop cfg fuel cur true m) = Some false.
Proof.
  induction l as [|b l IH]; intros cur c Hl Hin Hu Hbad fuel Hfuel;
    [destruct Hin|].
  destruct fuel as [|k]; [cbn in Hfuel; lia|].
  rewrite poison_check_loop_step.
  apply block_list_cons_inv in Hl. destruct Hl as (-> & E & Hl').
  rename cur into b.
  destruct (Z.eqb_spec (next_block cfg m b) 0) as [E0|_]; [contradiction|].
  assert (Hrest : In c l ->
            value (poison_check_loop cfg k (next_block cfg m b) true m) = Some false).
  { intros Hc. apply (IH _ c); auto. cbn in Hfuel. lia. }
  destruct (used cfg m b) eqn:Hcur.
  - cbv zeta.
    destruct (value (check_poison_block cfg (UMM_BLOCK cfg b) m)) eqn:Hv;
      [|reflexivity].
    cbn [value fst]. destruct Hin as [->|Hin]; [congruence | now apply Hrest].
  - destruct Hin as [->|Hin]; [congruence | now apply Hrest].
Qed.

End WalkerRuns.

(** ** The heap scan *)

(** C1 (amended) -- Heap scan correctness.  Let [l] be the blocks of the
    heap in successor order from block 0's successor up to, and not
    including, the block that ends the list, some used and some free.
    (a) If every used block of [l] holds the sentinel in its pre-guard and
    in its post-guard, the latter found through the stored length field
    as the verifier finds it, [umm_poison_check] returns pass, and on the
    way it has handed to the verifier exactly the used blocks of [l], in
    order, skipping the free ones, printing nothing.  (b) If a used block [c] of
    [l] fails its check while the used blocks before it are intact, the
    scan returns fail at once: the trace ends with [c]'s report and no
    block after [c] is verified.  (c) In terms of the allocations: if
    the length field of every used block of [l] holds the allocation's
    total size, and the pre-guard after the length field and the
    post-guard ending at that total hold the sentinel, the scan passes as
    in (a).  Any fuel above the number of blocks walked is enough. *)
Theorem umm_poison_check_scan (cfg : config) (m : mem) (l : list Z) :
  block_list cfg m (next_block cfg m 0) l ->
  ((forall c, In c l -> used cfg m c = true ->
              guards_intact cfg m (UMM_BLOCK cfg c)) ->
   forall fuel, (List.length l < fuel)%nat ->
     umm_poison_check cfg fuel m =
     (Some true, m, map Verify (filter (used cfg m) l))) /\
  (forall l1 c l2,
     l = l1 ++ c :: l2 ->
     (forall c', In c' l1 -> used cfg m c' = true ->
                 guards_intact cfg m (UMM_BLOCK cfg c')) ->
     used cfg m c = true ->
     value (check_poison_block cfg (UMM_BLOCK cfg c) m) = false ->
     forall fuel, (List.length l1 < fuel)%nat ->
       umm_poison_check cfg fuel m =
       (Some false, m,
        map Verify (filter (used cfg m) l1)
        ++ Verify c :: trace (check_poison_block cfg (UMM_BLOCK cfg c) m))) /\
  (forall total : Z -> Z,
     (forall c, In c l -> used cfg m c = true ->
        let ptr := body_data cfg (UMM_BLOCK cfg c) in
        load_len cfg m ptr = total c /\
        all_poison m (ptr + sizeof_LEN_TYPE cfg) (UMM_POISON_SIZE_BEFORE cfg) /\
        all_poison m (ptr + total c - UMM_POISON_SIZE_AFTER cfg)
          (UMM_POISON_SIZE_AFTER cfg)) ->
     forall fuel, (List.length l < fuel)%nat ->
       umm_poison_check cfg fuel m =
       (Some true, m, map Verify (filter (used cfg m) l))).
Proof.
  intros Hl. split; [|split].
  - intros Hok fuel Hfuel. rewrite umm_poison_check_unfold.
    now apply poison_check_loop_pass.
  - intros l1 c l2 -> Hok Hu Hbad fuel Hfuel. rewrite umm_poison_check_unfold.
    now apply (poison_check_loop_fail cfg m l1 c l2).
  - intros total Hok fuel Hfuel. rewrite umm_poison_check_unfold.
    apply poison_check_loop_pass; [exact Hl | | exact Hfuel].
    intros c Hc Hu. destruct (Hok c Hc Hu) as (Hlen & Hpre & Hpost).
    unfold guards_intact, pre_guard, post_guard. rewrite Hlen. now split.
Qed.

Lemma demo_heap_block_list :
  block_list cfg32 demo_heap (next_block cfg32 demo_heap 0) [1; 4; 6].
Proof.
  change (next_block cfg32 demo_heap 0) with 1.
  apply block_list_cons; [vm_compute; discriminate|].
  change (next_block cfg32 demo_heap 1) with 4.
  apply block_list_cons; [vm_compute; discriminate|].
  change (next_block cfg32 demo_heap 4) with 6.
  apply block_list_cons; [vm_compute; discriminate|].
  apply block_list_end. reflexivity.
Defined.

Lemma demo_heap_intact c :
  In c [1; 4; 6] -> used cfg32 demo_heap c = true ->
  guards_intact cfg32 demo_heap (UMM_BLOCK cfg32 c).
Proof.
  intros [<-|[<-|[<-|[]]]] Hu; try (vm_compute in Hu; discriminate);
    apply check_poison_block_true_iff; reflexivity.
Defined.

Lemma umm_poison_check_scan_witness :
  block_list cfg32 demo_heap (next_block cfg32 demo_heap 0) [1; 4; 6] /\
  umm_poison_check cfg32 4 demo_heap = (Some true, demo_heap, [Verify 1; Verify 6]).
Proof.
  split; [exact demo_heap_block_list|].
  destruct (umm_poison_check_scan cfg32 demo_heap [1; 4; 6] demo_heap_block_list)
    as [Hpass _].
  apply (Hpass demo_heap_intact 4%nat). cbn. lia.
Defined.

(** The same heap after one byte of block 1's post-guard is smashed: the
    scan stops at block 1 and never looks at block 6. *)
Example umm_poison_check_stops_at_first_failure :
  let r := umm_poison_check cfg32 4 (upd demo_heap (slot + 16) Byte.x00) in
  value r = Some false /\ In (Verify 1) (trace r) /\ ~ In (Verify 6) (trace r).
Proof.
  vm_compute. repeat split; [now left|].
  intros H. repeat (destruct H as [H|H]; [discriminate|]). exact H.
Qed.

(** C9 -- The block that ends the list is never verified.  In every heap
    and for every length of run, a block that [umm_poison_check] hands to
    the verifier has a non-zero masked successor index: the loop tests the
    successor first and leaves before the body when it is 0, so the last
    block of the walk is skipped, used or not. *)
Theorem umm_poison_check_skips_last (cfg : config) (fuel : nat) (m : mem) (c : Z) :
  In (Verify c) (trace (umm_poison_check cfg fuel m)) ->
  next_block cfg m c <> 0.
Proof.
  rewrite umm_poison_check_unfold. apply poison_check_loop_mark.
Qed.

Lemma umm_poison_check_skips_last_witness :
  In (Verify 6) (trace (umm_poison_check cfg32 4 demo_heap)) /\
  next_block cfg32 demo_heap 6 <> 0.
Proof.
  assert (H : In (Verify 6) (trace (umm_poison_check cfg32 4 demo_heap)))
    by (vm_compute; right; left; reflexivity).
  split; [exact H|].
  exact (umm_poison_check_skips_last cfg32 4 demo_heap 6 H).
Defined.

(** Block 8 ends the list of [demo_heap]; it is used and holds no sentinel
    at all, and the scan passes without ever verifying it. *)
Example last_block_is_skipped :
  next_block cfg32 demo_heap 8 = 0 /\
  used cfg32 demo_heap 8 = true /\
  value (check_poison_block cfg32 (UMM_BLOCK cfg32 8) demo_heap) = false /\
  value (umm_poison_check cfg32 4 demo_heap) = Some true.
Proof. vm_compute. repeat split. Qed.

(** ** Resizing to nothing *)

Lemma get_poisoned_zero cfg ptr (m : mem) :
  get_poisoned cfg ptr 0 m = (ptr, m, []).
Proof. reflexivity. Qed.

(** C10 -- Zero-size resize.  For a non-null user pointer,
    [umm_poison_realloc ptr 0] translates the pointer (running the
    diagnostic check on its block), calls the external resize with the raw
    pointer and size 0, and returns what the external resize returned:
    the value is its value, the memory is the memory it left (no sentinel
    and no length written afterwards) and the trace is the check's output
    followed by the external call's. *)
Theorem umm_poison_realloc_zero (cfg : config) (alloc : allocator) (ptr : Z) (m : mem) :
  ptr <> NULL ->
  let raw := ptr - (sizeof_LEN_TYPE cfg + UMM_POISON_SIZE_BEFORE cfg) in
  let checked := trace (check_poison_block cfg (UMM_BLOCK cfg (block_of cfg raw)) m) in
  umm_poison_realloc cfg alloc ptr 0 m =
  (value (umm_realloc alloc raw 0 m),
   final (umm_realloc alloc raw 0 m),
   checked ++ trace (umm_realloc alloc raw 0 m)).
Proof.
  intros Hp raw checked. unfold umm_poison_realloc. unfold bind at 1.
  pose proof (get_unpoisoned_run cfg ptr m Hp) as Hrun. cbv zeta in Hrun.
  rewrite Hrun. fold raw. fold checked.
  change (wrap_size cfg (0 + poison_size cfg 0)) with (0 mod 2 ^ SIZE_BITS cfg).
  rewrite Zmod_0_l.
  unfold bind. destruct (umm_realloc alloc raw 0 m) as [[r m1] l1].
  rewrite get_poisoned_zero. cbn. now rewrite app_nil_r.
Qed.

(** A raw pointer three bytes below the heap: its offset wraps around and
    the block checked is block 65535. *)
Example block_of_below_heap :
  block_of cfg32 (UMM_HEAP cfg32 - 3) = 65535.
Proof. reflexivity. Qed.

Lemma umm_poison_realloc_zero_witness :
  slot + 6 <> NULL /\
  value (umm_poison_realloc cfg32 one_slot (slot + 6) 0 demo_heap) = NULL /\
  final (umm_poison_realloc cfg32 one_slot (slot + 6) 0 demo_heap) =
  final (umm_realloc one_slot slot 0 demo_heap).
Proof.
  assert (H : slot + 6 <> NULL) by (vm_compute; discriminate).
  split; [exact H|].
  rewrite (umm_poison_realloc_zero cfg32 one_slot (slot + 6) demo_heap H).
  split; reflexivity.
Defined.

(** ** The sentinel writer *)

Section Writer.

Context (cfg : config).

Local Notation "'BEFORE'" := (UMM_POISON_SIZE_BEFORE cfg).
Local Notation "'AFTER'" := (UMM_POISON_SIZE_AFTER cfg).
Local Notation "'LEN'" := (sizeof_LEN_TYPE cfg).

Lemma get_poisoned_run ptr size (m : mem) :
  ptr <> NULL -> size <> 0 ->
  get_poisoned cfg ptr size m = (ptr + LEN + BEFORE, stamped cfg ptr size m, []).
Proof.
  intros Hp Hs. unfold get_poisoned.
  destruct (Z.eqb_spec size 0) as [E|_]; [contradiction|].
  destruct (Z.eqb_spec ptr NULL) as [E|_]; [contradiction|].
  reflexivity.
Qed.

Lemma get_poisoned_pass_through ptr size (m : mem) :
  ptr = NULL \/ size = 0 -> get_poisoned cfg ptr size m = (ptr, m, []).
Proof.
  intros H. unfold get_poisoned.
  destruct (Z.eqb_spec size 0) as [E|E]; [reflexivity|].
  destruct (Z.eqb_spec ptr NULL) as [E'|E']; [reflexivity|].
  destruct H; contradiction.
Qed.

Lemma stamped_pre ptr size (m : mem) a :
  ptr + LEN <= a < ptr + LEN + BEFORE ->
  stamped cfg ptr size m a = byte.of_Z POISON_BYTE.
Proof.
  intros Ha. unfold stamped. rewrite store_uint_out by lia.
  rewrite !fill_spec. zcases; try reflexivity; lia.
Qed.

Lemma stamped_post ptr size (m : mem) a :
  ptr + size - AFTER <= a < ptr + size -> ~ (ptr <= a < ptr + LEN) ->
  stamped cfg ptr size m a = byte.of_Z POISON_BYTE.
Proof.
  intros Ha Hn. unfold stamped. rewrite store_uint_out by lia.
  rewrite fill_spec. zcases; try reflexivity; lia.
Qed.

Lemma stamped_other ptr size (m : mem) a :
  ~ (ptr <= a < ptr + LEN) ->
  ~ (ptr + LEN <= a < ptr + LEN + BEFORE) ->
  ~ (ptr + size - AFTER <= a < ptr + size) ->
  stamped cfg ptr size m a = m a.
Proof.
  intros H1 H2 H3. unfold stamped. rewrite store_uint_out by lia.
  rewrite !fill_spec. zcases; try reflexivity; lia.
Qed.

Lemma stamped_len_bytes ptr size (m : mem) :
  load_bytes (stamped cfg ptr size m) ptr (Z.to_nat LEN) =
  le_split (Z.to_nat LEN) (cast_len cfg size).
Proof.
  unfold stamped, store_uint.
  rewrite <- (length_le_split (Z.to_nat LEN) (cast_len cfg size)) at 2.
  apply load_store_bytes.
Qed.

Lemma stamped_len ptr size (m : mem) :
  0 <= LEN -> load_len cfg (stamped cfg ptr size m) ptr = cast_len cfg size.
Proof.
  intros HL. unfold load_len, stamped. rewrite load_store_uint.
  unfold cast_len. rewrite Z2Nat.id by exact HL. apply Z.mod_mod.
  apply Z.pow_nonzero; lia.
Qed.

End Writer.

(** C3 (amended) -- Sentinel Writer postcondition.  With a null pointer or
    a total size of 0, [get_poisoned] returns the pointer it was given and
    leaves memory as it was.  Otherwise it returns
    raw pointer + length-field size + pre-guard size and leaves the
    sentinel in every byte of the pre-guard, which starts right after
    the length field, and in every byte of the post-guard, which ends at
    raw pointer + total size, that the length field does not cover: the
    length field is written last.  When the total size is at least
    length-field size + post-guard size the whole post-guard holds the
    sentinel. *)
Theorem get_poisoned_postcondition (cfg : config) (ptr size : Z) (m : mem) :
  (ptr = NULL \/ size = 0 -> get_poisoned cfg ptr size m = (ptr, m, [])) /\
  (ptr <> NULL -> size <> 0 ->
   let r := get_poisoned cfg ptr size m in
   value r = ptr + sizeof_LEN_TYPE cfg + UMM_POISON_SIZE_BEFORE cfg /\
   all_poison (final r) (ptr + sizeof_LEN_TYPE cfg) (UMM_POISON_SIZE_BEFORE cfg) /\
   (forall a,
      ptr + size - UMM_POISON_SIZE_AFTER cfg <= a < ptr + size ->
      ~ (ptr <= a < ptr + sizeof_LEN_TYPE cfg) ->
      byte.unsigned (final r a) = POISON_BYTE) /\
   (sizeof_LEN_TYPE cfg + UMM_POISON_SIZE_AFTER cfg <= size ->
    all_poison (final r) (ptr + size - UMM_POISON_SIZE_AFTER cfg)
      (UMM_POISON_SIZE_AFTER cfg))).
Proof.
  split; [apply get_poisoned_pass_through|].
  intros Hp Hs r. subst r. rewrite get_poisoned_run by assumption.
  cbn [value final fst snd]. repeat split.
  - intros a Ha. now rewrite stamped_pre.
  - intros a Ha Hn. now rewrite stamped_post.
  - intros Hfit a Ha. rewrite stamped_post by lia. reflexivity.
Qed.

Lemma get_poisoned_postcondition_witness :
  slot <> NULL /\ 20 <> 0 /\
  sizeof_LEN_TYPE cfg32 + UMM_POISON_SIZE_AFTER cfg32 <= 20 /\
  value (get_poisoned cfg32 slot 20 zero_heap) = slot + 2 + 4 /\
  all_poison (final (get_poisoned cfg32 slot 20 zero_heap)) (slot + 2) 4 /\
  all_poison (final (get_poisoned cfg32 slot 20 zero_heap)) (slot + 20 - 4) 4.
Proof.
  assert (Hp : slot <> NULL) by (vm_compute; discriminate).
  assert (Hs : 20 <> 0) by discriminate.
  assert (Hfit : sizeof_LEN_TYPE cfg32 + UMM_POISON_SIZE_AFTER cfg32 <= 20)
    by (vm_compute; discriminate).
  destruct (get_poisoned_postcondition cfg32 slot 20 zero_heap) as [_ H].
  destruct (H Hp Hs) as (Hv & Hpre & _ & Hpost).
  repeat split; auto.
Defined.

(** A total of one byte: the post-guard would be [slot - 3, slot + 1), and
    its last byte is the first byte of the length field, which holds 1. *)
Lemma get_poisoned_tiny_total :
  ~ (forall (ptr size : Z) (m : mem),
       ptr <> NULL -> 0 < size ->
       let r := get_poisoned cfg32 ptr size m in
       value r = ptr + sizeof_LEN_TYPE cfg32 + UMM_POISON_SIZE_BEFORE cfg32 /\
       all_poison (final r) (ptr + sizeof_LEN_TYPE cfg32) (UMM_POISON_SIZE_BEFORE cfg32) /\
       all_poison (final r) (ptr + size - UMM_POISON_SIZE_AFTER cfg32)
         (UMM_POISON_SIZE_AFTER cfg32)).
Proof.
  intros H.
  assert (Hp : slot <> NULL) by (vm_compute; discriminate).
  destruct (H slot 1 zero_heap Hp eq_refl) as (_ & _ & Hpost).
  specialize (Hpost slot). vm_compute in Hpost.
  assert (E : 1 = 165) by (apply Hpost; split; [discriminate | reflexivity]).
  discriminate E.
Qed.

(** ** The heap scan and the length type *)

(** One used block of 65539 bytes in all, freshly stamped: both guards
    hold the sentinel where [get_poisoned] wrote them, but the 16-bit
    length field reads 3 and the scan fails. *)
Lemma intact_guards_beyond_length_type :
  ~ (forall (m : mem) (l : list Z) (total : Z -> Z),
       block_list cfg32 m (next_block cfg32 m 0) l ->
       (forall c, In c l -> used cfg32 m c = true ->
          all_poison m (body_data cfg32 (UMM_BLOCK cfg32 c) + sizeof_LEN_TYPE cfg32)
            (UMM_POISON_SIZE_BEFORE cfg32) /\
          all_poison m (body_data cfg32 (UMM_BLOCK cfg32 c) + total c
                        - UMM_POISON_SIZE_AFTER cfg32)
            (UMM_POISON_SIZE_AFTER cfg32)) ->
       exists fuel, value (umm_poison_check cfg32 fuel m) = Some true).
Proof.
  intros H.
  pose (m := stamped cfg32 slot 65539 big_heap).
  assert (Hl : block_list cfg32 m (next_block cfg32 m 0) [1]).
  { change (next_block cfg32 m 0) with 1.
    apply block_list_cons; [vm_compute; discriminate|].
    apply block_list_end. reflexivity. }
  destruct (H m [1] (fun _ => 65539) Hl) as [fuel Hpass].
  - intros c [<-|[]] _. split; intros a Ha.
    + unfold m. change (body_data cfg32 (UMM_BLOCK cfg32 1)) with slot in *.
      rewrite stamped_pre by exact Ha. reflexivity.
    + unfold m. change (body_data cfg32 (UMM_BLOCK cfg32 1)) with slot in *.
      change (UMM_POISON_SIZE_AFTER cfg32) with 4 in *.
      rewrite stamped_post;
        [reflexivity
        | change (UMM_POISON_SIZE_AFTER cfg32) with 4; lia
        | change (sizeof_LEN_TYPE cfg32) with 2; lia].
  - destruct fuel as [|k]; [discriminate Hpass|].
    rewrite umm_poison_check_unfold in Hpass.
    rewrite (poison_check_loop_fail cfg32 m [] 1 []) in Hpass;
      [discriminate Hpass | exact Hl | intros c [] | reflexivity | reflexivity
      | cbn; lia].
Qed.

(** ** The length field *)

(** C4 (amended) -- Length-field exactness.  After [get_poisoned] on a
    non-null pointer with a non-zero total size, the length field holds
    the total size cast to the length type, that is the total size modulo
    2^(8 * length-field size): the exact total size whenever it fits the
    length type.  The verifier reads the same bytes back: for the block
    whose body starts at the raw pointer it looks for the post-guard at
    raw pointer + that value - post-guard size. *)
Theorem length_field_after_stamp (cfg : config) (pblock size : Z) (m : mem) :
  config_ok cfg ->
  let ptr := body_data cfg pblock in
  let m' := final (get_poisoned cfg ptr size m) in
  ptr <> NULL -> size <> 0 ->
  load_bytes m' ptr (Z.to_nat (sizeof_LEN_TYPE cfg)) =
    le_split (Z.to_nat (sizeof_LEN_TYPE cfg)) (cast_len cfg size) /\
  load_len cfg m' ptr = size mod 2 ^ (8 * sizeof_LEN_TYPE cfg) /\
  post_guard cfg m' pblock =
    ptr + size mod 2 ^ (8 * sizeof_LEN_TYPE cfg) - UMM_POISON_SIZE_AFTER cfg /\
  (0 <= size < 2 ^ (8 * sizeof_LEN_TYPE cfg) ->
   load_len cfg m' ptr = size /\
   post_guard cfg m' pblock = ptr + size - UMM_POISON_SIZE_AFTER cfg).
Proof.
  intros Hok ptr m' Hp Hs. subst m'. rewrite get_poisoned_run by assumption.
  cbn [final fst snd]. destruct Hok.
  assert (Hlen : load_len cfg (stamped cfg ptr size m) ptr =
                 size mod 2 ^ (8 * sizeof_LEN_TYPE cfg))
    by (apply stamped_len; lia).
  split; [apply stamped_len_bytes|]. split; [exact Hlen|].
  unfold post_guard. fold ptr. rewrite Hlen. split; [reflexivity|].
  intros Hfit. rewrite Z.mod_small by exact Hfit. now split.
Qed.

Lemma length_field_after_stamp_witness :
  config_ok cfg32 /\ slot <> NULL /\ 20 <> 0 /\ 0 <= 20 < 2 ^ (8 * 2) /\
  load_len cfg32 (final (get_poisoned cfg32 slot 20 zero_heap)) slot = 20.
Proof.
  assert (Hp : body_data cfg32 (UMM_BLOCK cfg32 1) <> NULL) by (vm_compute; discriminate).
  assert (Hs : 20 <> 0) by discriminate.
  assert (Hfit : 0 <= 20 < 2 ^ (8 * 2)) by (split; [discriminate | reflexivity]).
  destruct (length_field_after_stamp cfg32 (UMM_BLOCK cfg32 1) 20 zero_heap cfg32_ok Hp Hs)
    as (_ & _ & _ & H).
  destruct (H Hfit) as [Hl _].
  exact (conj cfg32_ok (conj Hp (conj Hs (conj Hfit Hl)))).
Defined.

(** With a 16-bit length field a total of 65556 bytes is stored as 20. *)
Lemma length_field_truncates :
  ~ (forall (ptr size : Z) (m : mem),
       ptr <> NULL -> 0 < size < 2 ^ SIZE_BITS cfg32 ->
       load_len cfg32 (final (get_poisoned cfg32 ptr size m)) ptr = size).
Proof.
  intros H.
  assert (Hp : slot <> NULL) by (vm_compute; discriminate).
  assert (Hs : 0 < 65556 < 2 ^ SIZE_BITS cfg32) by (split; reflexivity).
  specialize (H slot 65556 zero_heap Hp Hs). vm_compute in H. discriminate H.
Qed.

(** ** Corruption detection *)

Lemma smashed_region_fails (m : mem) p n a :
  p <= a < p + n -> byte.unsigned (m a) <> POISON_BYTE ->
  check_poison_loop m p 0 (Z.to_nat n) = false.
Proof.
  intros Ha Hv. destruct (check_poison_loop m p 0 (Z.to_nat n)) eqn:E;
    [|reflexivity].
  apply check_poison_loop_true_iff in E. exfalso. now apply Hv, E.
Qed.

(** C2 (amended) -- Corruption detection.  Take an allocation of [s > 0]
    bytes in the used block at [pblock] whose total size
    [s + overhead] neither wraps around [size_t] nor exceeds what the
    length field can hold, stamped by [get_poisoned]; let the caller write
    anywhere but on the length field and the guards; then let one guard
    byte be overwritten with a value other than the sentinel.  The next
    [check_poison_block] on the block returns fail and its report starts
    with the side of the smashed guard, before or after.  A scan whose
    block list contains the block returns fail too, and when the used
    blocks ahead of it are intact the scan's output ends with that same
    report. *)
Theorem guard_corruption_detected
  (cfg : config) (pblock s : Z) (m0 m2 : mem) (a : Z) (v : byte) :
  config_ok cfg ->
  let LEN := sizeof_LEN_TYPE cfg in
  let BEFORE := UMM_POISON_SIZE_BEFORE cfg in
  let AFTER := UMM_POISON_SIZE_AFTER cfg in
  let ptr := body_data cfg pblock in
  let total := wrap_size cfg (s + poison_size cfg s) in
  let m1 := final (get_poisoned cfg ptr total m0) in
  let m3 := upd m2 a v in
  ptr <> NULL ->
  0 < s ->
  s + (LEN + BEFORE + AFTER) < 2 ^ SIZE_BITS cfg ->
  s + (LEN + BEFORE + AFTER) < 2 ^ (8 * LEN) ->
  (forall x, ptr <= x < ptr + LEN + BEFORE \/ ptr + total - AFTER <= x < ptr + total ->
             m2 x = m1 x) ->
  byte.unsigned v <> POISON_BYTE ->
  is_free cfg m3 pblock = false ->
  (ptr + LEN <= a < ptr + LEN + BEFORE ->
   check_poison_block cfg pblock m3 =
   (false, m3, no_poison_report m3 (ptr + LEN) BEFORE "before")) /\
  (ptr + total - AFTER <= a < ptr + total ->
   check_poison_block cfg pblock m3 =
   (false, m3, no_poison_report m3 (ptr + total - AFTER) AFTER "after")) /\
  (ptr + LEN <= a < ptr + LEN + BEFORE \/ ptr + total - AFTER <= a < ptr + total ->
   forall c l,
     pblock = UMM_BLOCK cfg c ->
     block_list cfg m3 (next_block cfg m3 0) l -> In c l ->
     (forall fuel, (List.length l <= fuel)%nat ->
        value (umm_poison_check cfg fuel m3) = Some false) /\
     (forall l1 l2,
        l = l1 ++ c :: l2 ->
        (forall c', In c' l1 -> used cfg m3 c' = true ->
                    guards_intact cfg m3 (UMM_BLOCK cfg c')) ->
        forall fuel, (List.length l1 < fuel)%nat ->
          trace (umm_poison_check cfg fuel m3) =
          map Verify (filter (used cfg m3) l1)
          ++ Verify c :: trace (check_poison_block cfg pblock m3))).
Proof.
  intros Hok LEN BEFORE AFTER ptr total m1 m3 Hp Hs Hsize Hlen Hsame Hv Hused.
  pose proof (fun z => poison_size_nonzero cfg z Hok) as Hgeo.
  assert (Htotal : total = s + (LEN + BEFORE + AFTER)).
  { subst total. rewrite Hgeo by lia. unfold wrap_size.
    destruct Hok. rewrite Z.mod_small; subst LEN BEFORE AFTER; lia. }
  destruct Hok as [HB HA HL Hbits Hfits Hbody].
  fold BEFORE in HB. fold AFTER in HA. fold LEN in HL.
  assert (Hm1 : m1 = stamped cfg ptr total m0).
  { subst m1. rewrite get_poisoned_run by lia. reflexivity. }
  assert (Hva : byte.unsigned (m3 a) <> POISON_BYTE).
  { subst m3. now rewrite upd_same. }
  assert (Hpre : ptr + LEN <= a < ptr + LEN + BEFORE ->
                 check_poison_block cfg pblock m3 =
                 (false, m3, no_poison_report m3 (ptr + LEN) BEFORE "before")).
  { intros Ha. rewrite check_poison_block_run, Hused.
    unfold pre_guard. fold ptr LEN BEFORE.
    now rewrite (smashed_region_fails m3 (ptr + LEN) BEFORE a). }
  assert (Hpost : ptr + total - AFTER <= a < ptr + total ->
                  check_poison_block cfg pblock m3 =
                  (false, m3, no_poison_report m3 (ptr + total - AFTER) AFTER "after")).
  { intros Ha. rewrite check_poison_block_run, Hused.
    assert (Hlenfield : load_len cfg m3 ptr = total).
    { transitivity (load_len cfg m1 ptr).
      - apply load_uint_ext. intros x Hx. fold LEN in Hx. subst m3.
        rewrite upd_other by lia. apply Hsame. lia.
      - rewrite Hm1, stamped_len by (fold LEN; lia).
        unfold cast_len. fold LEN. apply Z.mod_small. lia. }
    unfold pre_guard, post_guard. fold ptr LEN BEFORE AFTER. rewrite Hlenfield.
    assert (Hintact : check_poison_loop m3 (ptr + LEN) 0 (Z.to_nat BEFORE) = true).
    { apply check_poison_loop_true_iff. intros x Hx. subst m3.
      rewrite upd_other by lia. rewrite Hsame by lia.
      rewrite Hm1, stamped_pre by (fold LEN BEFORE; lia). reflexivity. }
    rewrite Hintact. cbn [negb].
    rewrite (smashed_region_fails m3 (ptr + total - AFTER) AFTER a)
      by (assumption || lia).
    reflexivity. }
  split; [exact Hpre|]. split; [exact Hpost|].
  intros Ha c l -> Hl Hin.
  assert (Hbad : value (check_poison_block cfg (UMM_BLOCK cfg c) m3) = false).
  { destruct Ha as [Ha|Ha]; [rewrite Hpre | rewrite Hpost]; auto. }
  assert (Hu : used cfg m3 c = true).
  { unfold used. now rewrite Hused. }
  split.
  - intros fuel Hfuel. rewrite umm_poison_check_unfold.
    now apply (poison_check_loop_reaches cfg m3 l _ c).
  - intros l1 l2 -> Hok1 fuel Hfuel. rewrite umm_poison_check_unfold.
    rewrite (poison_check_loop_fail cfg m3 l1 c l2); auto.
Qed.

(** The scenario of the specification: a 10-byte allocation, 20 bytes in
    all, and a zero written on the first byte of its post-guard. *)
Lemma guard_corruption_detected_witness :
  let m1 := stamp 1 20 linked_heap in
  let m3 := upd m1 (slot + 16) Byte.x00 in
  config_ok cfg32 /\ slot <> NULL /\ 0 < 10 /\
  10 + (2 + 4 + 4) < 2 ^ 32 /\ 10 + (2 + 4 + 4) < 2 ^ (8 * 2) /\
  byte.unsigned Byte.x00 <> POISON_BYTE /\
  is_free cfg32 m3 (UMM_BLOCK cfg32 1) = false /\
  slot + 20 - 4 <= slot + 16 < slot + 20 /\
  check_poison_block cfg32 (UMM_BLOCK cfg32 1) m3 =
  (false, m3, no_poison_report m3 (slot + 20 - 4) 4 "after").
Proof.
  intros m1 m3.
  assert (Hp : body_data cfg32 (UMM_BLOCK cfg32 1) <> NULL) by (vm_compute; discriminate).
  assert (Hs : 0 < 10) by reflexivity.
  assert (H32 : 10 + (2 + 4 + 4) < 2 ^ 32) by reflexivity.
  assert (H16 : 10 + (2 + 4 + 4) < 2 ^ (8 * 2)) by reflexivity.
  assert (Hv : byte.unsigned Byte.x00 <> POISON_BYTE) by (vm_compute; discriminate).
  assert (Hu : is_free cfg32 m3 (UMM_BLOCK cfg32 1) = false) by reflexivity.
  assert (Ha : slot + 20 - 4 <= slot + 16 < slot + 20)
    by (split; [discriminate | reflexivity]).
  destruct (guard_corruption_detected cfg32 (UMM_BLOCK cfg32 1) 10 linked_heap m1
              (slot + 16) Byte.x00 cfg32_ok Hp Hs H32 H16 (fun _ _ => eq_refl) Hv Hu)
    as (_ & Hpost & _).
  exact (conj cfg32_ok (conj Hp (conj Hs (conj H32 (conj H16 (conj Hv
           (conj Hu (conj Ha (Hpost Ha))))))))).
Defined.

(** With a 16-bit length field, a 65532-byte allocation is 65542 bytes in
    all and its length field reads 6: the verifier looks for the
    post-guard on top of the pre-guard, and a smashed byte of the real
    post-guard goes unnoticed. *)
Lemma truncated_length_hides_corruption :
  ~ (forall (s : Z) (m0 : mem) (a : Z) (v : byte),
       0 < s < 2 ^ SIZE_BITS cfg32 ->
       let total := wrap_size cfg32 (s + poison_size cfg32 s) in
       let m1 := final (get_poisoned cfg32 slot total m0) in
       is_free cfg32 (upd m1 a v) (UMM_BLOCK cfg32 1) = false ->
       slot + 2 <= a < slot + 2 + 4 \/ slot + total - 4 <= a < slot + total ->
       byte.unsigned v <> POISON_BYTE ->
       value (check_poison_block cfg32 (UMM_BLOCK cfg32 1) (upd m1 a v)) = false).
Proof.
  intros H.
  assert (Hs : 0 < 65532 < 2 ^ SIZE_BITS cfg32) by (split; reflexivity).
  specialize (H 65532 big_heap (slot + 65538) Byte.x00 Hs eq_refl).
  assert (Ha : slot + 2 <= slot + 65538 < slot + 2 + 4 \/
               slot + wrap_size cfg32 (65532 + poison_size cfg32 65532) - 4
               <= slot + 65538
               < slot + wrap_size cfg32 (65532 + poison_size cfg32 65532)).
  { right. split; [discriminate | reflexivity]. }
  assert (Hv : byte.unsigned Byte.x00 <> POISON_BYTE) by (vm_compute; discriminate).
  specialize (H Ha Hv). vm_compute in H. discriminate H.
Qed.

(** The full scan of that heap passes as well. *)
Example truncated_length_hides_corruption_from_scan :
  let m1 := final (get_poisoned cfg32 slot 65542 big_heap) in
  let m3 := upd m1 (slot + 65538) Byte.x00 in
  block_list cfg32 m3 (next_block cfg32 m3 0) [1] /\
  used cfg32 m3 1 = true /\
  umm_poison_check cfg32 2 m3 = (Some true, m3, [Verify 1]).
Proof.
  intros m1 m3. split; [|split; reflexivity].
  change (next_block cfg32 m3 0) with 1.
  apply block_list_cons; [vm_compute; discriminate|].
  apply block_list_end. reflexivity.
Qed.

(** ** Zero-filled allocation *)

Lemma umm_poison_calloc_run (cfg : config) (alloc : allocator) num item (m : mem) :
  let size := wrap_size cfg (item * num) in
  let total := wrap_size cfg (size + poison_size cfg size) in
  let got := umm_malloc alloc total m in
  value got <> NULL -> total <> 0 ->
  umm_poison_calloc cfg alloc num item m =
  (value got + sizeof_LEN_TYPE cfg + UMM_POISON_SIZE_BEFORE cfg,
   stamped cfg (value got) total
     (fill (final got) (value got) Byte.x00 (Z.to_nat total)),
   trace got).
Proof.
  intros size total got Hr Ht. unfold umm_poison_calloc.
  fold size. fold total. unfold bind at 1. fold got.
  destruct got as [[r m1] l1]. cbn [value final trace fst snd] in *.
  destruct (Z.eqb_spec NULL r) as [E|_]; [symmetry in E; contradiction|].
  cbn [negb]. unfold bind, memset.
  rewrite get_poisoned_run by assumption.
  change (byte.of_Z 0) with Byte.x00. cbn. now rewrite app_nil_r.
Qed.

(** C8 (amended) -- zero_allocate ordering.  When [item_size * num] is not
    0 in [size_t], the inflated total does not wrap around and the
    external allocation succeeds, [umm_poison_calloc] first zero-fills
    exactly the [total] bytes at the raw pointer and then stamps them.  In
    the memory it leaves the length field holds the total (cast to the
    length type), both guards hold the sentinel rather than zeros, every
    byte of the user region is zero, nothing outside the [total] bytes
    has changed since the allocator returned, and the caller gets the
    address of the user region. *)
Theorem umm_poison_calloc_zero_then_stamp
  (cfg : config) (alloc : allocator) (num item : Z) (m : mem) :
  config_ok cfg ->
  let LEN := sizeof_LEN_TYPE cfg in
  let BEFORE := UMM_POISON_SIZE_BEFORE cfg in
  let AFTER := UMM_POISON_SIZE_AFTER cfg in
  let size := wrap_size cfg (item * num) in
  let total := wrap_size cfg (size + poison_size cfg size) in
  let got := umm_malloc alloc total m in
  let res := umm_poison_calloc cfg alloc num item m in
  size <> 0 ->
  size + (LEN + BEFORE + AFTER) < 2 ^ SIZE_BITS cfg ->
  value got <> NULL ->
  total = size + (LEN + BEFORE + AFTER) /\
  value res = value got + LEN + BEFORE /\
  trace res = trace got /\
  final res =
    final (get_poisoned cfg (value got) total
             (fill (final got) (value got) Byte.x00 (Z.to_nat total))) /\
  load_len cfg (final res) (value got) = cast_len cfg total /\
  all_poison (final res) (value got + LEN) BEFORE /\
  all_poison (final res) (value got + total - AFTER) AFTER /\
  (forall a, value got + LEN + BEFORE <= a < value got + total - AFTER ->
             final res a = Byte.x00) /\
  (forall a, ~ (value got <= a < value got + total) ->
             final res a = final got a).
Proof.
  intros Hok LEN BEFORE AFTER size total got res Hsize Hfit Hr.
  pose proof (fun z => poison_size_nonzero cfg z Hok) as Hgeo.
  destruct Hok as [HB HA HL Hbits Hfits Hbody].
  fold BEFORE in HB. fold AFTER in HA. fold LEN in HL.
  assert (Hsz : 0 <= size).
  { subst size. unfold wrap_size. apply Z.mod_pos_bound. apply Z.pow_pos_nonneg; lia. }
  assert (Htotal : total = size + (LEN + BEFORE + AFTER)).
  { subst total. rewrite Hgeo by exact Hsize. unfold wrap_size.
    rewrite Z.mod_small; subst LEN BEFORE AFTER; lia. }
  assert (Ht : total <> 0) by lia.
  assert (Hrun : res =
            (value got + LEN + BEFORE,
             stamped cfg (value got) total
               (fill (final got) (value got) Byte.x00 (Z.to_nat total)),
             trace got))
    by (apply umm_poison_calloc_run; assumption).
  rewrite Hrun. cbn [value final trace fst snd].
  rewrite get_poisoned_run by assumption. cbn [final fst snd].
  split; [exact Htotal|]. repeat split.
  - apply stamped_len. fold LEN. lia.
  - intros a Ha. now rewrite stamped_pre.
  - intros a Ha. rewrite stamped_post by (fold LEN AFTER; lia). reflexivity.
  - intros a Ha. rewrite stamped_other by (fold LEN BEFORE AFTER; lia).
    apply fill_in. lia.
  - intros a Ha. rewrite stamped_other by (fold LEN BEFORE AFTER; lia).
    apply fill_out. lia.
Qed.

Lemma umm_poison_calloc_zero_then_stamp_witness :
  let res := umm_poison_calloc cfg32 one_slot 5 2 linked_heap in
  config_ok cfg32 /\ wrap_size cfg32 (2 * 5) <> 0 /\
  wrap_size cfg32 (2 * 5) + (2 + 4 + 4) < 2 ^ 32 /\
  value (umm_malloc one_slot 20 linked_heap) <> NULL /\
  value res = slot + 2 + 4 /\
  load_len cfg32 (final res) slot = 20 /\
  all_poison (final res) (slot + 2) 4 /\
  all_poison (final res) (slot + 20 - 4) 4 /\
  (forall a, slot + 2 + 4 <= a < slot + 20 - 4 -> final res a = Byte.x00).
Proof.
  intros res.
  assert (Hsize : wrap_size cfg32 (2 * 5) <> 0) by (vm_compute; discriminate).
  assert (Hfit : wrap_size cfg32 (2 * 5) + (2 + 4 + 4) < 2 ^ 32) by reflexivity.
  assert (Hr : value (umm_malloc one_slot 20 linked_heap) <> NULL)
    by (vm_compute; discriminate).
  destruct (umm_poison_calloc_zero_then_stamp cfg32 one_slot 5 2 linked_heap
              cfg32_ok Hsize Hfit Hr)
    as (_ & Hv & _ & _ & Hlen & Hpre & Hpost & Huser & _).
  exact (conj cfg32_ok (conj Hsize (conj Hfit (conj Hr (conj Hv (conj Hlen
           (conj Hpre (conj Hpost Huser)))))))).
Defined.

(** One item of 2^32 - 9 bytes: the inflated total wraps around to 1, the
    allocator hands out its slot, and the byte just below [slot + 1],
    where the post-guard should end, holds the low byte of the length. *)
Lemma umm_poison_calloc_wrapped_total :
  ~ (forall (num item : Z) (m : mem),
       0 <= num < 2 ^ SIZE_BITS cfg32 -> 0 <= item < 2 ^ SIZE_BITS cfg32 ->
       0 < num * item ->
       let size := wrap_size cfg32 (item * num) in
       let total := wrap_size cfg32 (size + poison_size cfg32 size) in
       let got := umm_malloc one_slot total m in
       let res := umm_poison_calloc cfg32 one_slot num item m in
       value got <> NULL ->
       all_poison (final res) (value got + sizeof_LEN_TYPE cfg32)
         (UMM_POISON_SIZE_BEFORE cfg32) /\
       all_poison (final res) (value got + total - UMM_POISON_SIZE_AFTER cfg32)
         (UMM_POISON_SIZE_AFTER cfg32)).
Proof.
  intros H.
  assert (Hn : 0 <= 1 < 2 ^ SIZE_BITS cfg32) by (split; [discriminate | reflexivity]).
  assert (Hi : 0 <= 2 ^ 32 - 9 < 2 ^ SIZE_BITS cfg32)
    by (split; [discriminate | reflexivity]).
  assert (Hr : value (umm_malloc one_slot 1 linked_heap) <> NULL)
    by (vm_compute; discriminate).
  destruct (H 1 (2 ^ 32 - 9) linked_heap Hn Hi eq_refl Hr) as [_ Hpost].
  specialize (Hpost slot). vm_compute in Hpost.
  assert (E : 1 = 165) by (apply Hpost; split; [discriminate | reflexivity]).
  discriminate E.
Qed.

(** * Further properties of the code *)

(** ** What the verifier reads and prints *)

Lemma dump_mem_loop_bytes n : forall (m : mem) p,
  dump_mem_loop m p n = map dump_entry (load_bytes m p n).
Proof.
  induction n as [|n IH]; intros m p; cbn [dump_mem_loop load_bytes map].
  - reflexivity.
  - now rewrite IH.
Qed.



Lemma check_poison_loop_false_iff (m : mem) p n :
  check_poison_loop m p 0 (Z.to_nat n) = false <-> ~ all_poison m p n.
Proof.
  rewrite <- check_poison_loop_true_iff.
  destruct (check_poison_loop m p 0 (Z.to_nat n)); split; congruence.
Qed.

(** X1 -- [check_poison] answers [true], printing nothing, exactly when
    every byte of the region holds the sentinel (an empty region always
    passes).  Otherwise it answers [false] and prints the header with the
    side label and the address, then every byte of the region in address
    order, not only the bytes up to the first foreign one, then the end
    of line.  Memory is never changed. *)
Theorem check_poison_verdict (ptr n : Z) (where_ : string) (m : mem) :
  (n <= 0 -> all_poison m ptr n) /\
  (all_poison m ptr n -> check_poison ptr n where_ m = (true, m, [])) /\
  (~ all_poison m ptr n ->
   check_poison ptr n where_ m =
   (false, m,
    DBGLOG_ERROR "No poison %s block at: 0x%08x, actual data:"
      [ArgStr where_; ArgInt (DBGLOG_32_BIT_PTR ptr)]
    :: map dump_entry (load_bytes m ptr (Z.to_nat n))
    ++ [DBGLOG_ERROR "\n" []])).
Proof.
  split; [intros Hn a Ha; lia|]. split; intros H; rewrite check_poison_run.
  - apply check_poison_loop_true_iff in H. now rewrite H.
  - apply check_poison_loop_false_iff in H. rewrite H.
    unfold no_poison_report. now rewrite dump_mem_loop_bytes.
Qed.

Lemma check_poison_verdict_witness :
  ~ all_poison (upd (stamp 1 20 linked_heap) (slot + 3) Byte.x07) (slot + 2) 4 /\
  check_poison (slot + 2) 4 "before"
    (upd (stamp 1 20 linked_heap) (slot + 3) Byte.x07) =
  (false, upd (stamp 1 20 linked_heap) (slot + 3) Byte.x07,
   [DBGLOG_ERROR "No poison %s block at: 0x%08x, actual data:"
      [ArgStr "before"; ArgInt (slot + 2)];
    dump_entry Byte.xa5; dump_entry Byte.x07; dump_entry Byte.xa5;
    dump_entry Byte.xa5; DBGLOG_ERROR "\n" []]).
Proof.
  assert (H : ~ all_poison (upd (stamp 1 20 linked_heap) (slot + 3) Byte.x07)
                (slot + 2) 4).
  { intros Hp. specialize (Hp (slot + 3)). vm_compute in Hp.
    assert (E : 7 = 165) by (apply Hp; split; [discriminate | reflexivity]).
    discriminate E. }
  split; [exact H|].
  destruct (check_poison_verdict (slot + 2) 4 "before"
              (upd (stamp 1 20 linked_heap) (slot + 3) Byte.x07)) as (_ & _ & Hbad).
  rewrite (Hbad H). reflexivity.
Defined.

(** X2 -- On a used block [check_poison_block] reports one side only, and
    the pre-guard first: a damaged pre-guard gives fail with the "before"
    report alone, whatever the length field and the post-guard hold; an
    intact pre-guard with a damaged post-guard gives fail with the "after"
    report alone; both intact gives pass and no output. *)
Theorem check_poison_block_sides (cfg : config) (pblock : Z) (m : mem) :
  is_free cfg m pblock = false ->
  (~ all_poison m (pre_guard cfg pblock) (UMM_POISON_SIZE_BEFORE cfg) ->
   check_poison_block cfg pblock m =
   (false, m,
    no_poison_report m (pre_guard cfg pblock) (UMM_POISON_SIZE_BEFORE cfg) "before")) /\
  (all_poison m (pre_guard cfg pblock) (UMM_POISON_SIZE_BEFORE cfg) ->
   ~ all_poison m (post_guard cfg m pblock) (UMM_POISON_SIZE_AFTER cfg) ->
   check_poison_block cfg pblock m =
   (false, m,
    no_poison_report m (post_guard cfg m pblock) (UMM_POISON_SIZE_AFTER cfg) "after")) /\
  (all_poison m (pre_guard cfg pblock) (UMM_POISON_SIZE_BEFORE cfg) ->
   all_poison m (post_guard cfg m pblock) (UMM_POISON_SIZE_AFTER cfg) ->
   check_poison_block cfg pblock m = (true, m, [])).
Proof.
  intros Hu. rewrite check_poison_block_run, Hu. repeat split.
  - intros H. apply check_poison_loop_false_iff in H. now rewrite H.
  - intros H1 H2. apply check_poison_loop_true_iff in H1.
    apply check_poison_loop_false_iff in H2. now rewrite H1, H2.
  - intros H1 H2. apply check_poison_loop_true_iff in H1, H2.
    now rewrite H1, H2.
Qed.

(** Both guards of block 1 smashed: only the pre-guard is reported. *)
Lemma check_poison_block_sides_witness :
  let m := upd (upd (stamp 1 20 linked_heap) (slot + 3) Byte.x07) (slot + 17) Byte.x07 in
  is_free cfg32 m (UMM_BLOCK cfg32 1) = false /\
  ~ all_poison m (slot + 20 - 4) 4 /\
  trace (check_poison_block cfg32 (UMM_BLOCK cfg32 1) m) =
  no_poison_report m (slot + 2) 4 "before".
Proof.
  intros m.
  assert (Hu : is_free cfg32 m (UMM_BLOCK cfg32 1) = false) by reflexivity.
  assert (Hpost : ~ all_poison m (slot + 20 - 4) 4).
  { intros Hp. specialize (Hp (slot + 17)). vm_compute in Hp.
    assert (E : 7 = 165) by (apply Hp; split; [discriminate | reflexivity]).
    discriminate E. }
  assert (Hpre : ~ all_poison m (pre_guard cfg32 (UMM_BLOCK cfg32 1))
                   (UMM_POISON_SIZE_BEFORE cfg32)).
  { intros Hp. specialize (Hp (slot + 3)). vm_compute in Hp.
    assert (E : 7 = 165) by (apply Hp; split; [discriminate | reflexivity]).
    discriminate E. }
  destruct (check_poison_block_sides cfg32 (UMM_BLOCK cfg32 1) m Hu) as (Hb & _ & _).
  split; [exact Hu|]. split; [exact Hpost|]. rewrite (Hb Hpre). reflexivity.
Defined.



(** ** What the writer touches *)

(** X4 -- [get_poisoned] writes inside the length field and the two guards
    and nowhere else.  When the pointer arithmetic stays inside the
    address space (no address from the raw pointer to the end of the
    block, nor the start of the post-guard, leaves [0, 2^SIZE_BITS)),
    every byte outside
    [ptr, ptr + length-field size + pre-guard size) and outside
    [ptr + size - post-guard size, ptr + size) is left as it was.  The
    caller's bytes between the guards survive a stamp, which is what lets
    the resize path stamp a block whose contents the allocator has
    already moved. *)
Theorem get_poisoned_frame (cfg : config) (ptr size : Z) (m : mem) (a : Z) :
  config_ok cfg ->
  0 <= ptr -> 0 <= size ->
  ptr + size < 2 ^ SIZE_BITS cfg ->
  ptr + sizeof_LEN_TYPE cfg + UMM_POISON_SIZE_BEFORE cfg < 2 ^ SIZE_BITS cfg ->
  0 <= ptr + size - UMM_POISON_SIZE_AFTER cfg ->
  ~ (ptr <= a < ptr + sizeof_LEN_TYPE cfg + UMM_POISON_SIZE_BEFORE cfg) ->
  ~ (ptr + size - UMM_POISON_SIZE_AFTER cfg <= a < ptr + size) ->
  final (get_poisoned cfg ptr size m) a = m a.
Proof.
  intros Hok _ _ _ _ _ H1 H2. destruct Hok.
  destruct (Z.eq_dec ptr NULL) as [E|Hp];
    [rewrite get_poisoned_pass_through by (now left); reflexivity|].
  destruct (Z.eq_dec size 0) as [E|Hs];
    [rewrite get_poisoned_pass_through by (now right); reflexivity|].
  rewrite get_poisoned_run by assumption. cbn [final fst snd].
  apply stamped_other; lia.
Qed.

Lemma get_poisoned_frame_witness :
  config_ok cfg32 /\ 0 <= slot /\ 0 <= 20 /\
  slot + 20 < 2 ^ SIZE_BITS cfg32 /\
  slot + sizeof_LEN_TYPE cfg32 + UMM_POISON_SIZE_BEFORE cfg32 < 2 ^ SIZE_BITS cfg32 /\
  0 <= slot + 20 - UMM_POISON_SIZE_AFTER cfg32 /\
  ~ (slot <= slot + 9 < slot + sizeof_LEN_TYPE cfg32 + UMM_POISON_SIZE_BEFORE cfg32) /\
  ~ (slot + 20 - UMM_POISON_SIZE_AFTER cfg32 <= slot + 9 < slot + 20) /\
  final (get_poisoned cfg32 slot 20 (upd zero_heap (slot + 9) Byte.x2a)) (slot + 9)
  = Byte.x2a.
Proof.
  assert (Hp : 0 <= slot) by discriminate.
  assert (Hs : 0 <= 20) by discriminate.
  assert (He : slot + 20 < 2 ^ SIZE_BITS cfg32) by reflexivity.
  assert (Hg : slot + sizeof_LEN_TYPE cfg32 + UMM_POISON_SIZE_BEFORE cfg32
               < 2 ^ SIZE_BITS cfg32) by reflexivity.
  assert (Hq : 0 <= slot + 20 - UMM_POISON_SIZE_AFTER cfg32) by discriminate.
  assert (H1 : ~ (slot <= slot + 9
                  < slot + sizeof_LEN_TYPE cfg32 + UMM_POISON_SIZE_BEFORE cfg32))
    by (vm_compute; intros [_ H]; discriminate H).
  assert (H2 : ~ (slot + 20 - UMM_POISON_SIZE_AFTER cfg32 <= slot + 9 < slot + 20))
    by (vm_compute; intros [H _]; apply H; reflexivity).
  split; [exact cfg32_ok|]. split; [exact Hp|]. split; [exact Hs|].
  split; [exact He|]. split; [exact Hg|]. split; [exact Hq|].
  split; [exact H1|]. split; [exact H2|].
  rewrite (get_poisoned_frame cfg32 slot 20 _ (slot + 9) cfg32_ok Hp Hs He Hg Hq H1 H2).
  reflexivity.
Defined.

(** ** Stamp, then verify *)

Section StampVerify.

Context (cfg : config) (Hok : config_ok cfg).

Local Notation "'BEFORE'" := (UMM_POISON_SIZE_BEFORE cfg).
Local Notation "'AFTER'" := (UMM_POISON_SIZE_AFTER cfg).
Local Notation "'LEN'" := (sizeof_LEN_TYPE cfg).

(** Stamping the body of a block leaves the block's [next] field alone as
    long as the post-guard starts at or after the body. *)
Lemma stamped_header pblock total (m : mem) :
  AFTER <= total ->
  header_next (stamped cfg (body_data cfg pblock) total m) pblock =
  header_next m pblock.
Proof.
  intros Ht. destruct Hok. unfold header_next. apply load_uint_ext.
  intros a Ha. cbn in Ha. unfold body_data in *.
  apply stamped_other; lia.
Qed.

Lemma stamped_is_free pblock total (m : mem) :
  AFTER <= total ->
  is_free cfg (stamped cfg (body_data cfg pblock) total m) pblock =
  is_free cfg m pblock.
Proof. intros Ht. unfold is_free. now rewrite stamped_header. Qed.

Lemma stamped_intact pblock total (m : mem) :
  LEN + AFTER <= total < 2 ^ (8 * LEN) ->
  guards_intact cfg (stamped cfg (body_data cfg pblock) total m) pblock.
Proof.
  intros Ht. destruct Hok. unfold guards_intact, pre_guard, post_guard.
  rewrite stamped_len by lia. unfold cast_len. rewrite Z.mod_small by lia.
  split; intros a Ha.
  - now rewrite stamped_pre.
  - rewrite stamped_post by lia. reflexivity.
Qed.

Lemma stamped_verifies pblock total (m : mem) :
  LEN + AFTER <= total < 2 ^ (8 * LEN) ->
  is_free cfg m pblock = false ->
  check_poison_block cfg pblock (stamped cfg (body_data cfg pblock) total m) =
  (true, stamped cfg (body_data cfg pblock) total m, []).
Proof.
  intros Ht Hu. destruct Hok. apply check_poison_block_intact.
  - rewrite stamped_is_free by lia. exact Hu.
  - now apply stamped_intact.
Qed.

(** Any address inside block [c] resolves to [c]. *)
Lemma block_of_in_block c raw :
  0 < UMM_BLOCKSIZE cfg -> 0 <= c < 2 ^ 16 ->
  UMM_BLOCK cfg c <= raw < UMM_BLOCK cfg c + UMM_BLOCKSIZE cfg ->
  block_of cfg raw = c.
Proof.
  intros Hbs Hc Hraw. unfold block_of, offset_as_size, UMM_BLOCK in *.
  destruct (Z.ltb_spec (raw - UMM_HEAP cfg) 0) as [Hneg|_]; [nia|].
  rewrite Z.quot_div_nonneg by nia.
  assert (E : (raw - UMM_HEAP cfg) / UMM_BLOCKSIZE cfg = c).
  { symmetry. apply (Z.div_unique _ _ c (raw - UMM_HEAP cfg - c * UMM_BLOCKSIZE cfg));
      lia. }
  rewrite E. apply Z.mod_small. exact Hc.
Qed.

End StampVerify.

(** X5 -- Stamp, then verify.  After [get_poisoned] on the body of a used
    block, with a total size that leaves room for the length field and the
    post-guard and fits the length type, the block's [next] field is
    untouched and [check_poison_block] passes without printing
    anything. *)
Theorem get_poisoned_then_verify (cfg : config) (pblock total : Z) (m : mem) :
  config_ok cfg ->
  let ptr := body_data cfg pblock in
  let m' := final (get_poisoned cfg ptr total m) in
  ptr <> NULL ->
  sizeof_LEN_TYPE cfg + UMM_POISON_SIZE_AFTER cfg <= total
    < 2 ^ (8 * sizeof_LEN_TYPE cfg) ->
  is_free cfg m pblock = false ->
  header_next m' pblock = header_next m pblock /\
  check_poison_block cfg pblock m' = (true, m', []).
Proof.
  intros Hok ptr m' Hp Ht Hu. subst m'.
  assert (Hs : total <> 0) by (destruct Hok; lia).
  rewrite get_poisoned_run by assumption. cbn [final fst snd]. split.
  - apply stamped_header; [exact Hok | destruct Hok; lia].
  - now apply stamped_verifies.
Qed.

Lemma get_poisoned_then_verify_witness :
  config_ok cfg32 /\ slot <> NULL /\
  sizeof_LEN_TYPE cfg32 + UMM_POISON_SIZE_AFTER cfg32 <= 20
    < 2 ^ (8 * sizeof_LEN_TYPE cfg32) /\
  is_free cfg32 linked_heap (UMM_BLOCK cfg32 1) = false /\
  value (check_poison_block cfg32 (UMM_BLOCK cfg32 1) (stamp 1 20 linked_heap)) = true.
Proof.
  assert (Hp : body_data cfg32 (UMM_BLOCK cfg32 1) <> NULL)
    by (vm_compute; discriminate).
  assert (Ht : sizeof_LEN_TYPE cfg32 + UMM_POISON_SIZE_AFTER cfg32 <= 20
               < 2 ^ (8 * sizeof_LEN_TYPE cfg32))
    by (split; [discriminate | reflexivity]).
  assert (Hu : is_free cfg32 linked_heap (UMM_BLOCK cfg32 1) = false) by reflexivity.
  destruct (get_poisoned_then_verify cfg32 (UMM_BLOCK cfg32 1) 20 linked_heap
              cfg32_ok Hp Ht Hu) as [_ Hv].
  split; [exact cfg32_ok|]. split; [exact Hp|]. split; [exact Ht|].
  split; [exact Hu|]. unfold stamp. rewrite Hv. reflexivity.
Defined.

(** ** From a pointer back to its block *)

(** X6 -- The block index that [get_unpoisoned] computes: every address
    inside block [c] of the table, its first byte or any later one,
    resolves to [c] reduced to 16 bits, so to [c] itself for every index
    a 16-bit [next] field can name. *)
Theorem block_of_inside_block (cfg : config) (c raw : Z) :
  0 < UMM_BLOCKSIZE cfg -> 0 <= c ->
  UMM_BLOCK cfg c <= raw < UMM_BLOCK cfg c + UMM_BLOCKSIZE cfg ->
  block_of cfg raw = c mod 2 ^ 16 /\
  (c < 2 ^ 16 -> block_of cfg raw = c).
Proof.
  intros Hbs Hc Hraw.
  assert (E : block_of cfg raw = c mod 2 ^ 16).
  { unfold block_of, offset_as_size, UMM_BLOCK in *.
    destruct (Z.ltb_spec (raw - UMM_HEAP cfg) 0) as [Hneg|_]; [nia|].
    rewrite Z.quot_div_nonneg by nia. f_equal. symmetry.
    apply (Z.div_unique _ _ c (raw - UMM_HEAP cfg - c * UMM_BLOCKSIZE cfg)); lia. }
  split; [exact E|]. intros Hlt. rewrite E. apply Z.mod_small. lia.
Qed.

Lemma block_of_inside_block_witness :
  0 < UMM_BLOCKSIZE cfg32 /\ 0 <= 6 /\
  UMM_BLOCK cfg32 6 <= 4148 < UMM_BLOCK cfg32 6 + UMM_BLOCKSIZE cfg32 /\
  6 < 2 ^ 16 /\ block_of cfg32 4148 = 6.
Proof.
  assert (Hbs : 0 < UMM_BLOCKSIZE cfg32) by reflexivity.
  assert (Hc : 0 <= 6) by discriminate.
  assert (Hraw : UMM_BLOCK cfg32 6 <= 4148 < UMM_BLOCK cfg32 6 + UMM_BLOCKSIZE cfg32)
    by (split; [discriminate | reflexivity]).
  assert (Hlt : 6 < 2 ^ 16) by reflexivity.
  destruct (block_of_inside_block cfg32 6 4148 Hbs Hc Hraw) as [_ H].
  exact (conj Hbs (conj Hc (conj Hraw (conj Hlt (H Hlt))))).
Defined.



(** ** The scan, read the other way *)

Section ScanSound.

Context (cfg : config).

Lemma poison_check_loop_marks_used fuel : forall cur (m : mem) c,
  In (Verify c) (trace (poison_check_loop cfg fuel cur true m)) ->
  used cfg m c = true.
Proof.
  induction fuel as [|k IH]; intros cur m c H; [destruct H|].
  rewrite poison_check_loop_step in H.
  destruct (next_block cfg m cur =? 0); [destruct H|].
  destruct (used cfg m cur) eqn:Hu; [|now apply IH in H].
  cbv zeta in H.
  destruct (value (check_poison_block cfg (UMM_BLOCK cfg cur) m));
    cbn [trace snd] in H; destruct H as [H|H];
    try (injection H as <-; exact Hu).
  - apply in_app_or in H. destruct H as [H|H].
    + now apply check_poison_block_no_mark in H.
    + now apply IH in H.
  - now apply check_poison_block_no_mark in H.
Qed.

Lemma poison_check_loop_fail_sound fuel : forall cur (m : mem),
  value (poison_check_loop cfg fuel cur true m) = Some false ->
  exists c, In (Verify c) (trace (poison_check_loop cfg fuel cur true m)) /\
            value (check_poison_block cfg (UMM_BLOCK cfg c) m) = false.
Proof.
  induction fuel as [|k IH]; intros cur m H; [discriminate H|].
  rewrite poison_check_loop_step in H |- *.
  destruct (next_block cfg m cur =? 0); [discriminate H|].
  destruct (used cfg m cur); [|now apply IH].
  cbv zeta in H |- *.
  destruct (value (check_poison_block cfg (UMM_BLOCK cfg cur) m)) eqn:Hv.
  - cbn [value fst] in H. destruct (IH _ _ H) as (c & Hin & Hbad).
    exists c. split; [|exact Hbad]. cbn [trace snd]. right.
    apply in_or_app. now right.
  - exists cur. split; [now left | exact Hv].
Qed.

Lemma poison_check_loop_pass_sound fuel : forall cur (m : mem),
  value (poison_check_loop cfg fuel cur true m) = Some true ->
  forall e, In e (trace (poison_check_loop cfg fuel cur true m)) ->
  exists c, e = Verify c /\
            check_poison_block cfg (UMM_BLOCK cfg c) m = (true, m, []).
Proof.
  induction fuel as [|k IH]; intros cur m H e He; [discriminate H|].
  rewrite poison_check_loop_step in H, He.
  destruct (next_block cfg m cur =? 0); [destruct He|].
  destruct (used cfg m cur) eqn:Hu; [|now apply (IH _ _ H)].
  cbv zeta in H, He.
  destruct (value (check_poison_block cfg (UMM_BLOCK cfg cur) m)) eqn:Hv;
    [|discriminate H].
  cbn [value fst] in H. cbn [trace snd] in He.
  assert (Hrun : check_poison_block cfg (UMM_BLOCK cfg cur) m = (true, m, [])).
  { apply check_poison_block_intact.
    - unfold used in Hu. now apply negb_true_iff in Hu.
    - apply check_poison_block_true_iff; [|exact Hv].
      unfold used in Hu. now apply negb_true_iff in Hu. }
  rewrite Hrun in He. cbn [trace snd app] in He.
  destruct He as [<-|He]; [now exists cur | now apply (IH _ _ H)].
Qed.

Lemma poison_check_loop_cycle (m : mem) (P : Z -> Prop) :
  (forall c, P c ->
     next_block cfg m c <> 0 /\ P (next_block cfg m c) /\
     (used cfg m c = true -> guards_intact cfg m (UMM_BLOCK cfg c))) ->
  forall fuel cur, P cur ->
    value (poison_check_loop cfg fuel cur true m) = None.
Proof.
  intros Hinv. induction fuel as [|k IH]; intros cur Hcur; [reflexivity|].
  rewrite poison_check_loop_step.
  destruct (Hinv cur Hcur) as (Hn & Hnext & Hint).
  destruct (Z.eqb_spec (next_block cfg m cur) 0) as [E|_]; [contradiction|].
  destruct (used cfg m cur) eqn:Hu; [|now apply IH].
  rewrite (check_poison_block_intact cfg (UMM_BLOCK cfg cur) m).
  - cbv zeta. cbn [value fst]. now apply IH.
  - unfold used in Hu. now apply negb_true_iff in Hu.
  - now apply Hint.
Qed.

End ScanSound.

(** X8 -- The scan's verdict is backed by what it verified.  If
    [umm_poison_check] answers fail, one of the blocks it handed to the
    verifier is a used block whose check fails.  If it answers pass, it
    has printed nothing: its trace holds verification marks only, each of
    a block whose check passes silently. *)
Theorem umm_poison_check_verdict_sound (cfg : config) (fuel : nat) (m : mem) :
  (value (umm_poison_check cfg fuel m) = Some false ->
   exists c, In (Verify c) (trace (umm_poison_check cfg fuel m)) /\
             used cfg m c = true /\
             value (check_poison_block cfg (UMM_BLOCK cfg c) m) = false) /\
  (value (umm_poison_check cfg fuel m) = Some true ->
   forall e, In e (trace (umm_poison_check cfg fuel m)) ->
   exists c, e = Verify c /\
             check_poison_block cfg (UMM_BLOCK cfg c) m = (true, m, [])).
Proof.
  rewrite umm_poison_check_unfold. split.
  - intros H. destruct (poison_check_loop_fail_sound cfg fuel _ m H) as (c & Hin & Hbad).
    exists c. split; [exact Hin|]. split; [|exact Hbad].
    now apply (poison_check_loop_marks_used cfg fuel (next_block cfg m 0)).
  - now apply poison_check_loop_pass_sound.
Qed.

Lemma umm_poison_check_verdict_sound_witness :
  let m := upd demo_heap (slot + 16) Byte.x00 in
  value (umm_poison_check cfg32 4 m) = Some false /\
  exists c, In (Verify c) (trace (umm_poison_check cfg32 4 m)) /\
            used cfg32 m c = true /\
            value (check_poison_block cfg32 (UMM_BLOCK cfg32 c) m) = false.
Proof.
  intros m.
  assert (H : value (umm_poison_check cfg32 4 m) = Some false) by reflexivity.
  split; [exact H|].
  destruct (umm_poison_check_verdict_sound cfg32 4 m) as [Hfail _].
  exact (Hfail H).
Defined.

(** X9 -- No way out of a cycle.  If the walk from block 0's successor
    stays inside a set of blocks that all have a successor in the set, and
    the used ones among them are intact, then the loop of
    [umm_poison_check] never leaves: however many iterations it is given
    it has not produced an answer. *)
Theorem umm_poison_check_cycle (cfg : config) (m : mem) (P : Z -> Prop) :
  P (next_block cfg m 0) ->
  (forall c, P c ->
     next_block cfg m c <> 0 /\ P (next_block cfg m c) /\
     (used cfg m c = true -> guards_intact cfg m (UMM_BLOCK cfg c))) ->
  forall fuel, value (umm_poison_check cfg fuel m) = None.
Proof.
  intros H0 Hinv fuel. rewrite umm_poison_check_unfold.
  now apply (poison_check_loop_cycle cfg m P).
Qed.

Lemma umm_poison_check_cycle_witness :
  next_block cfg32 cyclic_heap 0 = 1 /\
  next_block cfg32 cyclic_heap 1 = 1 /\
  forall fuel, value (umm_poison_check cfg32 fuel cyclic_heap) = None.
Proof.
  split; [reflexivity|]. split; [reflexivity|].
  apply (umm_poison_check_cycle cfg32 cyclic_heap (fun c => c = 1)).
  - reflexivity.
  - intros c ->. split; [vm_compute; discriminate|]. split; [reflexivity|].
    intros _. apply check_poison_block_true_iff; reflexivity.
Defined.

(** X10 -- Verification is read-only: [check_poison_block],
    [get_unpoisoned] and [umm_poison_check] (for any number of
    iterations, finished or not) leave every byte of memory as it
    was. *)
Theorem verification_is_read_only (cfg : config) (m : mem) :
  (forall pblock, final (check_poison_block cfg pblock m) = m) /\
  (forall ptr, final (get_unpoisoned cfg ptr m) = m) /\
  (forall fuel, final (umm_poison_check cfg fuel m) = m).
Proof.
  repeat split.
  - intros pblock. apply check_poison_block_final.
  - intros ptr. destruct (Z.eq_dec ptr NULL) as [->|Hp]; [reflexivity|].
    pose proof (get_unpoisoned_run cfg ptr m Hp) as Hrun. cbv zeta in Hrun.
    now rewrite Hrun.
  - intros fuel. rewrite umm_poison_check_unfold. apply poison_check_loop_final.
Qed.

(** ** The facade *)

Section FacadeRuns.

Context (cfg : config) (alloc : allocator).

Lemma run_eta {A} (r : A * mem * list event) : r = (value r, final r, trace r).
Proof. now destruct r as [[a m] l]. Qed.

Lemma umm_poison_malloc_unfold s (m : mem) :
  let total := wrap_size cfg (s + poison_size cfg s) in
  let got := umm_malloc alloc total m in
  let stamped_ := get_poisoned cfg (value got) total (final got) in
  umm_poison_malloc cfg alloc s m =
  (value stamped_, final stamped_, trace got ++ trace stamped_).
Proof.
  cbv zeta. unfold umm_poison_malloc, bind.
  destruct (umm_malloc alloc _ m) as [[r m1] l1]. cbn [value final trace fst snd].
  now destruct (get_poisoned cfg r _ m1) as [[u m2] l2].
Qed.

Lemma umm_poison_calloc_unfold num item (m : mem) :
  let size := wrap_size cfg (item * num) in
  let total := wrap_size cfg (size + poison_size cfg size) in
  let got := umm_malloc alloc total m in
  let zeroed := if negb (NULL =? value got)
                then fill (final got) (value got) Byte.x00 (Z.to_nat total)
                else final got in
  let stamped_ := get_poisoned cfg (value got) total zeroed in
  umm_poison_calloc cfg alloc num item m =
  (value stamped_, final stamped_, trace got ++ trace stamped_).
Proof.
  cbv zeta. unfold umm_poison_calloc. unfold bind at 1.
  destruct (umm_malloc alloc _ m) as [[r m1] l1]. cbn [value final trace fst snd].
  unfold bind, memset, ret. change (byte.of_Z 0) with Byte.x00.
  destruct (negb (NULL =? r));
    now destruct (get_poisoned cfg r _ _) as [[u m2] l2].
Qed.

Lemma umm_poison_realloc_unfold ptr s (m : mem) :
  let raw := value (get_unpoisoned cfg ptr m) in
  let total := wrap_size cfg (s + poison_size cfg s) in
  let got := umm_realloc alloc raw total m in
  let stamped_ := get_poisoned cfg (value got) total (final got) in
  umm_poison_realloc cfg alloc ptr s m =
  (value stamped_, final stamped_,
   trace (get_unpoisoned cfg ptr m) ++ trace got ++ trace stamped_).
Proof.
  cbv zeta. unfold umm_poison_realloc. unfold bind at 1.
  assert (Hf : final (get_unpoisoned cfg ptr m) = m).
  { destruct (Z.eq_dec ptr NULL) as [->|Hp]; [reflexivity|].
    pose proof (get_unpoisoned_run cfg ptr m Hp) as Hrun. cbv zeta in Hrun.
    now rewrite Hrun. }
  destruct (get_unpoisoned cfg ptr m) as [[raw m0] l0].
  cbn [value final trace fst snd] in *. subst m0. unfold bind.
  destruct (umm_realloc alloc raw _ m) as [[r m1] l1].
  cbn [value final trace fst snd].
  now destruct (get_poisoned cfg r _ m1) as [[u m2] l2].
Qed.

Lemma umm_poison_free_unfold ptr (m : mem) :
  umm_poison_free cfg alloc ptr m =
  (value (umm_free alloc (value (get_unpoisoned cfg ptr m)) m),
   final (umm_free alloc (value (get_unpoisoned cfg ptr m)) m),
   trace (get_unpoisoned cfg ptr m)
   ++ trace (umm_free alloc (value (get_unpoisoned cfg ptr m)) m)).
Proof.
  unfold umm_poison_free, bind.
  assert (Hf : final (get_unpoisoned cfg ptr m) = m).
  { destruct (Z.eq_dec ptr NULL) as [->|Hp]; [reflexivity|].
    pose proof (get_unpoisoned_run cfg ptr m Hp) as Hrun. cbv zeta in Hrun.
    now rewrite Hrun. }
  destruct (get_unpoisoned cfg ptr m) as [[raw m0] l0].
  cbn [value final trace fst snd] in *. subst m0.
  now destruct (umm_free alloc raw m) as [[u m1] l1].
Qed.

End FacadeRuns.

(** X11 -- Zero-size requests pass through.  [umm_poison_malloc 0] is the
    external [umm_malloc 0]: same pointer, same memory, same output, no
    overhead asked for and nothing stamped.  [umm_poison_calloc] does the
    same whenever [item_size * num] is 0 in [size_t], which includes
    products that wrap around to 0. *)
Theorem zero_size_pass_through (cfg : config) (alloc : allocator) (m : mem) :
  umm_poison_malloc cfg alloc 0 m = umm_malloc alloc 0 m /\
  forall num item,
    wrap_size cfg (item * num) = 0 ->
    umm_poison_calloc cfg alloc num item m = umm_malloc alloc 0 m.
Proof.
  assert (E0 : wrap_size cfg (0 + poison_size cfg 0) = 0)
    by (unfold wrap_size; apply Zmod_0_l).
  split.
  - rewrite umm_poison_malloc_unfold. cbv zeta. rewrite E0, get_poisoned_zero.
    cbn [value final trace fst snd]. rewrite app_nil_r. symmetry. apply run_eta.
  - intros num item Hz. rewrite umm_poison_calloc_unfold. cbv zeta.
    rewrite Hz, E0, get_poisoned_zero. cbn [value final trace fst snd].
    rewrite app_nil_r.
    destruct (negb (NULL =? value (umm_malloc alloc 0 m)));
      symmetry; apply run_eta.
Qed.

Lemma zero_size_pass_through_witness :
  wrap_size cfg32 (65536 * 65536) = 0 /\
  umm_poison_calloc cfg32 one_slot 65536 65536 linked_heap =
  umm_malloc one_slot 0 linked_heap.
Proof.
  assert (Hz : wrap_size cfg32 (65536 * 65536) = 0) by reflexivity.
  split; [exact Hz|].
  destruct (zero_size_pass_through cfg32 one_slot linked_heap) as [_ H].
  exact (H 65536 65536 Hz).
Defined.

(** X12 -- Allocation failure is propagated.  When the external
    [umm_malloc] or [umm_realloc] returns [NULL], the facade returns
    [NULL] and the memory the allocator left: no sentinel, no length and
    no zero byte is written. *)
Theorem allocation_failure_propagates (cfg : config) (alloc : allocator) (m : mem) :
  (forall s,
     let got := umm_malloc alloc (wrap_size cfg (s + poison_size cfg s)) m in
     value got = NULL ->
     value (umm_poison_malloc cfg alloc s m) = NULL /\
     final (umm_poison_malloc cfg alloc s m) = final got) /\
  (forall num item,
     let size := wrap_size cfg (item * num) in
     let got := umm_malloc alloc (wrap_size cfg (size + poison_size cfg size)) m in
     value got = NULL ->
     value (umm_poison_calloc cfg alloc num item m) = NULL /\
     final (umm_poison_calloc cfg alloc num item m) = final got) /\
  (forall ptr s,
     let got := umm_realloc alloc (value (get_unpoisoned cfg ptr m))
                  (wrap_size cfg (s + poison_size cfg s)) m in
     value got = NULL ->
     value (umm_poison_realloc cfg alloc ptr s m) = NULL /\
     final (umm_poison_realloc cfg alloc ptr s m) = final got).
Proof.
  split; [|split].
  - intros s got H. rewrite umm_poison_malloc_unfold. cbv zeta. fold got.
    rewrite H, get_poisoned_pass_through by (now left). now split.
  - intros num item size got H. rewrite umm_poison_calloc_unfold. cbv zeta.
    fold size. fold got.
    rewrite H, get_poisoned_pass_through by (now left). now split.
  - intros ptr s got H. rewrite umm_poison_realloc_unfold. cbv zeta. fold got.
    rewrite H, get_poisoned_pass_through by (now left). now split.
Qed.

Lemma allocation_failure_propagates_witness :
  value (umm_malloc no_memory (wrap_size cfg32 (10 + poison_size cfg32 10)) demo_heap)
  = NULL /\
  value (umm_poison_malloc cfg32 no_memory 10 demo_heap) = NULL /\
  final (umm_poison_malloc cfg32 no_memory 10 demo_heap) = demo_heap.
Proof.
  assert (H : value (umm_malloc no_memory
                       (wrap_size cfg32 (10 + poison_size cfg32 10)) demo_heap) = NULL)
    by reflexivity.
  split; [exact H|].
  destruct (allocation_failure_propagates cfg32 no_memory demo_heap) as [Hm _].
  exact (Hm 10 H).
Defined.

(** X13 -- What [umm_poison_malloc] hands out.  For a request of [s > 0]
    bytes whose inflated total does not wrap, the allocator is asked for
    [s] + overhead bytes; when it succeeds with the raw pointer [r], the
    caller gets [u = r] + length-field size + pre-guard size, the
    pre-guard is the sentinel-filled range that ends at [u], the
    post-guard is the sentinel-filled range that starts at [u + s], the
    length field holds the total cast to the length type, and the [s]
    user bytes as well as everything outside the block are as the
    allocator left them (they are not cleared). *)
Theorem umm_poison_malloc_postcondition
  (cfg : config) (alloc : allocator) (s : Z) (m : mem) :
  config_ok cfg ->
  let LEN := sizeof_LEN_TYPE cfg in
  let BEFORE := UMM_POISON_SIZE_BEFORE cfg in
  let AFTER := UMM_POISON_SIZE_AFTER cfg in
  let total := s + (LEN + BEFORE + AFTER) in
  let got := umm_malloc alloc total m in
  let res := umm_poison_malloc cfg alloc s m in
  0 < s ->
  total < 2 ^ SIZE_BITS cfg ->
  value got <> NULL ->
  value res = value got + LEN + BEFORE /\
  trace res = trace got /\
  load_len cfg (final res) (value got) = cast_len cfg total /\
  all_poison (final res) (value res - BEFORE) BEFORE /\
  all_poison (final res) (value res + s) AFTER /\
  (forall a, value res <= a < value res + s -> final res a = final got a) /\
  (forall a, ~ (value got <= a < value got + total) -> final res a = final got a).
Proof.
  intros Hok LEN BEFORE AFTER total got res Hs Hfit Hr.
  assert (Htotal : wrap_size cfg (s + poison_size cfg s) = total).
  { rewrite (poison_size_nonzero cfg s Hok) by lia. unfold wrap_size.
    destruct Hok. apply Z.mod_small. subst total LEN BEFORE AFTER. lia. }
  destruct Hok as [HB HA HL Hbits Hfits Hbody].
  fold BEFORE in HB. fold AFTER in HA. fold LEN in HL.
  assert (Hrun : res = (value got + LEN + BEFORE,
                        stamped cfg (value got) total (final got), trace got)).
  { subst res. rewrite umm_poison_malloc_unfold. cbv zeta. rewrite Htotal.
    fold got. rewrite get_poisoned_run by (assumption || lia).
    cbn [value final trace fst snd]. now rewrite app_nil_r. }
  rewrite Hrun. cbn [value final trace fst snd]. repeat split.
  - apply stamped_len. fold LEN. lia.
  - intros a Ha. rewrite stamped_pre by (fold LEN BEFORE; lia). reflexivity.
  - intros a Ha. rewrite stamped_post by (fold LEN AFTER; lia). reflexivity.
  - intros a Ha. apply stamped_other; fold LEN BEFORE AFTER; lia.
  - intros a Ha. apply stamped_other; fold LEN BEFORE AFTER; lia.
Qed.

Lemma umm_poison_malloc_postcondition_witness :
  let res := umm_poison_malloc cfg32 one_slot 10 linked_heap in
  config_ok cfg32 /\ 0 < 10 /\ 10 + (2 + 4 + 4) < 2 ^ SIZE_BITS cfg32 /\
  value (umm_malloc one_slot 20 linked_heap) <> NULL /\
  value res = slot + 6 /\
  all_poison (final res) (slot + 2) 4 /\
  all_poison (final res) (slot + 16) 4.
Proof.
  intros res.
  assert (Hs : 0 < 10) by reflexivity.
  assert (Hfit : 10 + (2 + 4 + 4) < 2 ^ SIZE_BITS cfg32) by reflexivity.
  assert (Hr : value (umm_malloc one_slot 20 linked_heap) <> NULL)
    by (vm_compute; discriminate).
  destruct (umm_poison_malloc_postcondition cfg32 one_slot 10 linked_heap
              cfg32_ok Hs Hfit Hr) as (Hv & _ & _ & Hpre & Hpost & _).
  exact (conj cfg32_ok (conj Hs (conj Hfit (conj Hr (conj Hv (conj Hpre Hpost)))))).
Defined.

(** X14 -- A resize stamps the block again.  Whatever the old size was and
    whatever the check on the old block found, when the external
    [umm_realloc] succeeds with the body of a used block and the new total
    fits both [size_t] and the length type, [umm_poison_realloc] returns
    the user pointer of the new block, the new block passes
    [check_poison_block] without output, and the [s] user bytes are those
    the allocator put there. *)
Theorem umm_poison_realloc_restamps
  (cfg : config) (alloc : allocator) (ptr s pblock : Z) (m : mem) :
  config_ok cfg ->
  let LEN := sizeof_LEN_TYPE cfg in
  let BEFORE := UMM_POISON_SIZE_BEFORE cfg in
  let AFTER := UMM_POISON_SIZE_AFTER cfg in
  let total := s + (LEN + BEFORE + AFTER) in
  let got := umm_realloc alloc (value (get_unpoisoned cfg ptr m)) total m in
  let res := umm_poison_realloc cfg alloc ptr s m in
  0 < s ->
  total < 2 ^ SIZE_BITS cfg ->
  total < 2 ^ (8 * LEN) ->
  value got = body_data cfg pblock ->
  value got <> NULL ->
  is_free cfg (final got) pblock = false ->
  value res = value got + LEN + BEFORE /\
  check_poison_block cfg pblock (final res) = (true, final res, []) /\
  (forall a, value res <= a < value res + s -> final res a = final got a).
Proof.
  intros Hok LEN BEFORE AFTER total got res Hs Hfit Hlen Hbody Hr Hu.
  assert (Htotal : wrap_size cfg (s + poison_size cfg s) = total).
  { rewrite (poison_size_nonzero cfg s Hok) by lia. unfold wrap_size.
    destruct Hok. apply Z.mod_small. subst total LEN BEFORE AFTER. lia. }
  assert (HB : 0 <= BEFORE) by (destruct Hok; assumption).
  assert (HA : 0 <= AFTER) by (destruct Hok; assumption).
  assert (HL : 0 < LEN) by (destruct Hok; assumption).
  assert (Hrun : res = (value got + LEN + BEFORE,
                        stamped cfg (value got) total (final got),
                        trace (get_unpoisoned cfg ptr m) ++ trace got)).
  { subst res. rewrite umm_poison_realloc_unfold. cbv zeta. rewrite Htotal.
    fold got. rewrite get_poisoned_run by (assumption || lia).
    cbn [value final trace fst snd]. now rewrite app_nil_r. }
  rewrite Hrun. cbn [value final trace fst snd]. repeat split.
  - rewrite Hbody. apply stamped_verifies; [exact Hok | fold LEN AFTER; lia | exact Hu].
  - intros a Ha. apply stamped_other; fold LEN BEFORE AFTER; lia.
Qed.

(** Growing the 10-byte allocation of block 1 to 12 bytes after its
    post-guard was smashed: the old block fails its check, the new one
    passes. *)
Lemma umm_poison_realloc_restamps_witness :
  let m := upd (stamp 1 20 linked_heap) (slot + 16) Byte.x00 in
  let res := umm_poison_realloc cfg32 one_slot (slot + 6) 12 m in
  config_ok cfg32 /\ 0 < 12 /\
  12 + (2 + 4 + 4) < 2 ^ SIZE_BITS cfg32 /\ 12 + (2 + 4 + 4) < 2 ^ (8 * 2) /\
  value (check_poison_block cfg32 (UMM_BLOCK cfg32 1) m) = false /\
  value res = slot + 6 /\
  check_poison_block cfg32 (UMM_BLOCK cfg32 1) (final res) = (true, final res, []).
Proof.
  intros m res.
  assert (Hs : 0 < 12) by reflexivity.
  assert (Hfit : 12 + (2 + 4 + 4) < 2 ^ SIZE_BITS cfg32) by reflexivity.
  assert (Hlen : 12 + (2 + 4 + 4) < 2 ^ (8 * 2)) by reflexivity.
  assert (Hold : value (check_poison_block cfg32 (UMM_BLOCK cfg32 1) m) = false)
    by reflexivity.
  destruct (umm_poison_realloc_restamps cfg32 one_slot (slot + 6) 12
              (UMM_BLOCK cfg32 1) m cfg32_ok Hs Hfit Hlen)
    as (Hv & Hcheck & _);
    [reflexivity | vm_compute; discriminate | reflexivity |].
  exact (conj cfg32_ok (conj Hs (conj Hfit (conj Hlen (conj Hold
          (conj Hv Hcheck)))))).
Defined.

(** X15 -- Null pointers at the facade.  [umm_poison_free NULL] is the
    external [umm_free NULL]: no block is checked and nothing is printed
    before the call.  [umm_poison_realloc NULL s] checks no block either,
    and behaves as [umm_poison_malloc s] whenever the external resize of
    [NULL] behaves as an allocation. *)
Theorem null_pointer_at_facade (cfg : config) (alloc : allocator) (m : mem) :
  umm_poison_free cfg alloc NULL m = umm_free alloc NULL m /\
  forall s,
    let total := wrap_size cfg (s + poison_size cfg s) in
    umm_realloc alloc NULL total m = umm_malloc alloc total m ->
    umm_poison_realloc cfg alloc NULL s m = umm_poison_malloc cfg alloc s m.
Proof.
  split.
  - rewrite umm_poison_free_unfold. cbn [get_unpoisoned value final trace fst snd app].
    change (value (get_unpoisoned cfg NULL m)) with NULL.
    change (trace (get_unpoisoned cfg NULL m)) with (@nil event).
    cbn [app]. symmetry. apply run_eta.
  - intros s total H. rewrite umm_poison_realloc_unfold, umm_poison_malloc_unfold.
    cbv zeta. fold total.
    change (value (get_unpoisoned cfg NULL m)) with NULL.
    change (trace (get_unpoisoned cfg NULL m)) with (@nil event).
    rewrite H. reflexivity.
Qed.

Lemma null_pointer_at_facade_witness :
  umm_realloc one_slot NULL (wrap_size cfg32 (10 + poison_size cfg32 10)) linked_heap =
  umm_malloc one_slot (wrap_size cfg32 (10 + poison_size cfg32 10)) linked_heap /\
  umm_poison_realloc cfg32 one_slot NULL 10 linked_heap =
  umm_poison_malloc cfg32 one_slot 10 linked_heap.
Proof.
  assert (H : umm_realloc one_slot NULL
                (wrap_size cfg32 (10 + poison_size cfg32 10)) linked_heap =
              umm_malloc one_slot
                (wrap_size cfg32 (10 + poison_size cfg32 10)) linked_heap)
    by reflexivity.
  split; [exact H|].
  destruct (null_pointer_at_facade cfg32 one_slot linked_heap) as [_ Hr].
  exact (Hr 10 H).
Defined.

(** X16 -- Allocate, then release.  A pointer obtained from
    [umm_poison_malloc] for block [c] and handed to [umm_poison_free] in
    the memory the allocation left reaches the external [umm_free] as the
    allocator's own raw pointer, and the check on the way prints nothing:
    the release is the external release, output included. *)
Theorem umm_poison_free_after_malloc
  (cfg : config) (alloc : allocator) (s c : Z) (m : mem) :
  config_ok cfg ->
  let LEN := sizeof_LEN_TYPE cfg in
  let BEFORE := UMM_POISON_SIZE_BEFORE cfg in
  let AFTER := UMM_POISON_SIZE_AFTER cfg in
  let total := s + (LEN + BEFORE + AFTER) in
  let got := umm_malloc alloc total m in
  let res := umm_poison_malloc cfg alloc s m in
  0 < s ->
  total < 2 ^ SIZE_BITS cfg ->
  total < 2 ^ (8 * LEN) ->
  0 <= c < 2 ^ 16 ->
  offsetof_body cfg < UMM_BLOCKSIZE cfg ->
  value got = body_data cfg (UMM_BLOCK cfg c) ->
  0 < value got ->
  is_free cfg (final got) (UMM_BLOCK cfg c) = false ->
  umm_poison_free cfg alloc (value res) (final res) =
  umm_free alloc (value got) (final res).
Proof.
  intros Hok LEN BEFORE AFTER total got res Hs Hfit Hlen Hc Hoff Hbody Hpos Hu.
  assert (Htotal : wrap_size cfg (s + poison_size cfg s) = total).
  { rewrite (poison_size_nonzero cfg s Hok) by lia. unfold wrap_size.
    destruct Hok. apply Z.mod_small. subst total LEN BEFORE AFTER. lia. }
  assert (HB : 0 <= BEFORE) by (destruct Hok; assumption).
  assert (HA : 0 <= AFTER) by (destruct Hok; assumption).
  assert (HL : 0 < LEN) by (destruct Hok; assumption).
  assert (Hbo : 2 <= offsetof_body cfg) by (destruct Hok; assumption).
  assert (Hrun : res = (value got + LEN + BEFORE,
                        stamped cfg (value got) total (final got), trace got)).
  { subst res. rewrite umm_poison_malloc_unfold. cbv zeta. rewrite Htotal.
    fold got. rewrite get_poisoned_run by (unfold NULL; lia).
    cbn [value final trace fst snd]. now rewrite app_nil_r. }
  rewrite Hrun. cbn [value final fst snd].
  assert (Hback : get_unpoisoned cfg (value got + LEN + BEFORE)
                    (stamped cfg (value got) total (final got)) =
                  (value got, stamped cfg (value got) total (final got), [])).
  { rewrite get_unpoisoned_run by (unfold NULL; lia). cbv zeta.
    fold LEN BEFORE.
    replace (value got + LEN + BEFORE - (LEN + BEFORE)) with (value got) by lia.
    rewrite (block_of_in_block cfg c (value got))
      by (rewrite ?Hbody; unfold body_data; lia).
    rewrite Hbody.
    rewrite stamped_verifies; [reflexivity | exact Hok | fold LEN AFTER; lia | exact Hu]. }
  rewrite umm_poison_free_unfold, Hback. cbn [value final trace fst snd app].
  symmetry. apply run_eta.
Qed.

Lemma umm_poison_free_after_malloc_witness :
  let res := umm_poison_malloc cfg32 one_slot 10 zero_heap in
  config_ok cfg32 /\
  value (umm_malloc one_slot 20 zero_heap) = body_data cfg32 (UMM_BLOCK cfg32 1) /\
  is_free cfg32 (final (umm_malloc one_slot 20 zero_heap)) (UMM_BLOCK cfg32 1) = false /\
  umm_poison_free cfg32 one_slot (value res) (final res) =
  umm_free one_slot slot (final res).
Proof.
  intros res.
  assert (Hbody : value (umm_malloc one_slot 20 zero_heap) =
                  body_data cfg32 (UMM_BLOCK cfg32 1)) by reflexivity.
  assert (Hu : is_free cfg32 (final (umm_malloc one_slot 20 zero_heap))
                 (UMM_BLOCK cfg32 1) = false) by reflexivity.
  split; [exact cfg32_ok|]. split; [exact Hbody|]. split; [exact Hu|].
  apply (umm_poison_free_after_malloc cfg32 one_slot 10 1 zero_heap cfg32_ok);
    try reflexivity; try exact Hbody; try exact Hu.
  split; [discriminate | reflexivity].
Defined.

(** X17 -- Releasing or resizing a pointer whose block is already free.
    When the block that a non-null pointer resolves to carries the free
    tag, [get_unpoisoned] prints exactly the free-block usage error,
    examines no guard, and still returns the raw pointer;
    [umm_poison_free] then calls the external [umm_free] with it. *)
Theorem get_unpoisoned_free_block
  (cfg : config) (alloc : allocator) (ptr : Z) (m : mem) :
  let raw := ptr - (sizeof_LEN_TYPE cfg + UMM_POISON_SIZE_BEFORE cfg) in
  let pblock := UMM_BLOCK cfg (block_of cfg raw) in
  let msg := DBGLOG_ERROR "check_poison_block is called for free block 0x%08x\n"
               [ArgInt (DBGLOG_32_BIT_PTR pblock)] in
  ptr <> NULL ->
  is_free cfg m pblock = true ->
  get_unpoisoned cfg ptr m = (raw, m, [msg]) /\
  umm_poison_free cfg alloc ptr m =
  (value (umm_free alloc raw m), final (umm_free alloc raw m),
   msg :: trace (umm_free alloc raw m)).
Proof.
  intros raw pblock msg Hp Hfree.
  assert (Hrun : get_unpoisoned cfg ptr m = (raw, m, [msg])).
  { pose proof (get_unpoisoned_run cfg ptr m Hp) as Hrun. cbv zeta in Hrun.
    fold raw in Hrun. fold pblock in Hrun. rewrite Hrun.
    now rewrite check_poison_block_run, Hfree. }
  split; [exact Hrun|].
  rewrite umm_poison_free_unfold, Hrun. reflexivity.
Qed.

Lemma get_unpoisoned_free_block_witness :
  slot + 6 <> NULL /\
  is_free cfg32 free_block_heap (UMM_BLOCK cfg32 (block_of cfg32 slot)) = true /\
  get_unpoisoned cfg32 (slot + 6) free_block_heap =
  (slot, free_block_heap,
   [DBGLOG_ERROR "check_poison_block is called for free block 0x%08x\n"
      [ArgInt 4104]]).
Proof.
  assert (Hp : slot + 6 <> NULL) by (vm_compute; discriminate).
  assert (Hf : is_free cfg32 free_block_heap
                 (UMM_BLOCK cfg32 (block_of cfg32 (slot + 6 - (2 + 4)))) = true)
    by reflexivity.
  destruct (get_unpoisoned_free_block cfg32 one_slot (slot + 6) free_block_heap Hp Hf)
    as [Hrun _].
  split; [exact Hp|]. split; [exact Hf|]. exact Hrun.
Defined.
